(** * Site_Checker: the per-site check cycle and its scheduler

    A shallow embedding of [src/index.ts] and of the [STATUS] enum and the
    [Site] interface it imports.  The program is a single Node.js process:
    every [await] is a point where the running function is suspended and
    the event loop may run something else, so the asynchronous functions
    are split at their [await]s and the event loop is a step function on
    an explicit process state.

    Of the runtime the model keeps what the program meets: a plain object
    as the table of the counters, with the key [__proto__] that it
    inherits; the emitter of [node:events], with the events [newListener]
    and [error] that it treats on its own; and the end of the process when
    a promise is rejected that no one handles. *)

From Stdlib Require Import ZArith Lia Ascii.
From stdpp Require Import base strings gmap list pretty.

Local Open Scope Z_scope.

(** ** Data model *)

(** [export enum STATUS]: a numeric enum, members numbered from 0. *)
Inductive STATUS := COOLDOWN | WAIT | READY | GAVE_UP.

Definition STATUS_value (s : STATUS) : Z :=
  match s with
  | COOLDOWN => 0
  | WAIT => 1
  | READY => 2
  | GAVE_UP => 3
  end.

Global Instance STATUS_eq_dec : EqDecision STATUS.
Proof. solve_decision. Defined.

(** [export interface Site].  The two intervals are whole numbers of
    milliseconds. *)
Record Site := {
  name : string;
  url : string;
  textMatch : string;
  interval : Z;
  msgCooldown : Z;
  status : STATUS
}.

(** The values an own property of [failedAttempts] takes: a whole number,
    or [NaN] (what [++] makes of a key that holds no number).  The
    properties are only ever set to 0 and stepped by [++], so the numbers
    are whole and lie between 0 and 2^53, where a double holds them
    exactly. *)
Inductive jsnum := Num (n : Z) | NaN.

Definition MAX_SAFE_INTEGER : Z := 2 ^ 53 - 1.

(** [n + 1] on doubles for a whole number [n] between -2^53 and 2^53, the
    range in which every counter stays: the sum is exact up to 2^53 - 1,
    and 2^53 + 1, which is no double, rounds back to 2^53. *)
Definition succ_double (n : Z) : Z :=
  if n <=? MAX_SAFE_INTEGER then n + 1 else n.

Global Arguments succ_double : simpl never.

(** [ToNumber] of the result of a property read.  [None] is a key that
    is no own property of the object: the read gives [undefined] or, for a
    key of [Object.prototype] such as [toString] or [__proto__], a
    function or an object, and [ToNumber] makes [NaN] of each of them. *)
Definition to_number (v : option jsnum) : jsnum :=
  match v with
  | Some x => x
  | None => NaN
  end.

Definition js_succ (x : jsnum) : jsnum :=
  match x with
  | Num n => Num (succ_double n)
  | NaN => NaN
  end.

(** [obj[key] = v] on the plain object whose own properties are [fa], for
    a number [v].  A key that is an own property already is updated, and
    every other key becomes an own property, but for one: [__proto__],
    while it is no own property, is the accessor inherited from
    [Object.prototype], and its setter ignores a value that is neither an
    object nor [null], so that nothing is stored. *)
Definition js_assign (key : string) (v : jsnum) (fa : gmap string jsnum)
    : gmap string jsnum :=
  if decide (key = "__proto__" ∧ fa !! key = None) then fa
  else <[key := v]> fa.

Global Arguments js_assign : simpl never.

(** [v === k] and [v > k] for a property read [v] and a number literal [k]:
    what is read from a key that is no own property is no number, and
    compares as [NaN] does. *)
Definition js_strict_eq (v : option jsnum) (k : Z) : bool :=
  match v with
  | Some (Num n) => n =? k
  | _ => false
  end.

Definition js_gt (v : option jsnum) (k : Z) : bool :=
  match to_number v with
  | Num n => k <? n
  | NaN => false
  end.

(** A caught exception is used through [e.toString()] and as an argument
    of the logger only. *)
Record JsError := { error_toString : string }.

(** The parameter [e: Error | string] of [checkErrorHandler]. *)
Inductive Reason := ReasonError (e : JsError) | ReasonString (s : string).

Definition Reason_toString (e : Reason) : string :=
  match e with
  | ReasonError err => error_toString err
  | ReasonString s => s
  end.

(** What the two awaits of [check] come back with: [fetch] rejects, or it
    resolves to a response with a status code whose [text()] resolves or
    rejects.  Between the two awaits [check] only logs and reads
    [res.status], so both are taken in one step of the event loop. *)
Inductive TextResult := TextOk (html : string) | TextThrows (e : JsError).

Record Response := { res_status : Z; res_text : TextResult }.

Inductive FetchResult := FetchThrows (e : JsError) | FetchOk (res : Response).

(** What [transporter.sendMail] and [transporter.verify] come back with. *)
Inductive SendResult := SendOk | SendThrows (e : JsError).
Inductive VerifyResult := VerifyOk | VerifyThrows (e : JsError).

(** The argument of [transporter.sendMail]. *)
Record Mail := {
  mail_from : option string;
  mail_to : option string;
  mail_subject : string;
  mail_text : string
}.

(** The promise returned by one call of [sendAlert].  No caller awaits it
    or attaches a handler to it. *)
Inductive Promise := Pending | Fulfilled | Rejected (e : JsError).

(** ** Logging

    One constructor per template string handed to [logger], carrying the
    values the template interpolates. *)
Inductive LogLevel := LDebug | LInfo | LWarn | LError.

Inductive LogMsg :=
  | MsgSending (subject : string)
  | MsgSent (subject : string)
  | MsgFetchFailed (site_name : string)
  | MsgBadStatus (code : Z) (site_url : string)
  | MsgParseFailed (site_name site_url : string)
  | MsgReason (e : Reason)
  | MsgMakingRequest (site_url : string)
  | MsgRequestComplete (site_url : string)
  | MsgNoMatch (site_name : string)
  | MsgFoundMatch (site_name : string)
  | MsgCheckInitiated (site_name : string)
  | MsgTimeoutReached (site_name : string)
  | MsgGotCooldown (delay : Z)
  | MsgGotWait (delay : Z)
  | MsgGotReady
  | MsgGotGaveUp
  | MsgDefaultCase (site_name : string) (code : Z)
  | MsgIterating
  | MsgSettingListener (site_name : string)
  | MsgEmittingInitial (site_name : string)
  | MsgVerifying
  | MsgAuthorized
  | MsgAuthorizationFailed
  | MsgVerifyError (e : JsError)
  | MsgInitializingTransport
  | MsgTransportInitialized
  | MsgMissingEnv.

(** ** The process state *)

Record Process := {
  env : gmap string string;
        (* process.env; a missing key reads as undefined *)
  failedAttempts : gmap string jsnum;
        (* the own properties of the object, a plain {} at the start *)
  logged : list (LogLevel * LogMsg);
        (* every logger call so far, oldest first *)
  outbox : list (Mail * Promise);
        (* every sendAlert call so far with the state of its promise *)
  listeners : list (string * Site);
        (* eventEmitter.on(site.name, callback): event name and the site
           the callback closes over, in registration order *)
  fetching : list Site;
        (* handler calls suspended inside check at its first await *)
  timers : list (Z * Site);
        (* setTimeout(checkCallback, delay) not fired yet: the delay
           handed to setTimeout and the site checkCallback closes over *)
  exited : option Z
        (* the argument of process.exit, once called *)
}.

Definition boot (e : gmap string string) : Process :=
  {| env := e; failedAttempts := ∅; logged := []; outbox := [];
     listeners := []; fetching := []; timers := []; exited := None |}.

Definition set_failedAttempts (f : gmap string jsnum → gmap string jsnum)
    (p : Process) : Process :=
  {| env := env p; failedAttempts := f (failedAttempts p);
     logged := logged p; outbox := outbox p; listeners := listeners p;
     fetching := fetching p; timers := timers p; exited := exited p |}.

Definition set_logged (f : list (LogLevel * LogMsg) → list (LogLevel * LogMsg))
    (p : Process) : Process :=
  {| env := env p; failedAttempts := failedAttempts p;
     logged := f (logged p); outbox := outbox p; listeners := listeners p;
     fetching := fetching p; timers := timers p; exited := exited p |}.

Definition set_outbox (f : list (Mail * Promise) → list (Mail * Promise))
    (p : Process) : Process :=
  {| env := env p; failedAttempts := failedAttempts p;
     logged := logged p; outbox := f (outbox p); listeners := listeners p;
     fetching := fetching p; timers := timers p; exited := exited p |}.

Definition set_listeners (f : list (string * Site) → list (string * Site))
    (p : Process) : Process :=
  {| env := env p; failedAttempts := failedAttempts p;
     logged := logged p; outbox := outbox p; listeners := f (listeners p);
     fetching := fetching p; timers := timers p; exited := exited p |}.

Definition set_fetching (f : list Site → list Site) (p : Process) : Process :=
  {| env := env p; failedAttempts := failedAttempts p;
     logged := logged p; outbox := outbox p; listeners := listeners p;
     fetching := f (fetching p); timers := timers p; exited := exited p |}.

Definition set_timers (f : list (Z * Site) → list (Z * Site))
    (p : Process) : Process :=
  {| env := env p; failedAttempts := failedAttempts p;
     logged := logged p; outbox := outbox p; listeners := listeners p;
     fetching := fetching p; timers := f (timers p); exited := exited p |}.

Definition set_exited (c : Z) (p : Process) : Process :=
  {| env := env p; failedAttempts := failedAttempts p;
     logged := logged p; outbox := outbox p; listeners := listeners p;
     fetching := fetching p; timers := timers p; exited := Some c |}.

(** ** A monad for the effects of the program

    A computation reads and writes the process state and either returns a
    value or, when it calls [process.exit], never returns ([None]). *)

Definition M (A : Type) : Type := Process → option A * Process.

Global Instance M_ret : MRet M := λ A x p, (Some x, p).
Global Instance M_bind : MBind M :=
  λ A B f m p,
    match m p with
    | (Some a, p') => f a p'
    | (None, p') => (None, p')
    end.

Definition modify (f : Process → Process) : M unit := λ p, (Some tt, f p).
Definition gets {A} (f : Process → A) : M A := λ p, (Some (f p), p).
Definition process_exit {A} (c : Z) : M A := λ p, (None, set_exited c p).

(** A promise that is rejected while no handler is attached to it.  Once
    the microtask queue is empty Node raises the rejection as an uncaught
    exception (the default since Node 15; the global [fetch] that [check]
    calls needs Node 18), and the program installs no handler for either:
    the process ends with exit code 1. *)
Definition unhandled_rejection {A} : M A := λ p, (None, set_exited 1 p).

(** An exception that nothing catches.  Thrown inside the callback of a
    timer it is uncaught at once; thrown inside an async function it
    rejects a promise that no one handles.  Either way the process ends
    with exit code 1 and runs nothing more. *)
Definition uncaught_exception {A} : M A := λ p, (None, set_exited 1 p).

Definition logger (l : LogLevel) (m : LogMsg) : M unit :=
  modify (set_logged (λ ls, ls ++ [(l, m)])).

(** ** Constants of the module *)

Definition ATTEMPTS_BEFORE_GIVING_UP : Z := 3.
Definition MINUTES : Z := 1000 * 60.
Definition HOURS : Z := 1000 * 60 * 60.

Definition LibTheatreRoom : Site :=
  {| name := "LibTheatreRoom";
     url := "https://byu.libcal.com/reserve/mediaviewroomss";
     textMatch := "This resource is temporarily unavailable.";
     interval := 5 * MINUTES;
     msgCooldown := 4 * HOURS;
     status := READY |}.

Definition sites : list Site := [ LibTheatreRoom ].

(** ** Strings *)

Definition dquote : string := String (Ascii.ascii_of_nat 34%nat) EmptyString.
Definition newline : string := String (Ascii.ascii_of_nat 10%nat) EmptyString.

(** [s.includes(search)]: [search] occurs in [s] as a literal substring,
    compared character by character. *)
Fixpoint includes (s search : string) : bool :=
  if String.prefix search s then true
  else match s with
       | EmptyString => false
       | String _ s' => includes s' search
       end.

(** A template string interpolating a whole number below 10^21 in
    absolute value (larger numbers are printed with an exponent): its
    decimal digits, with a minus sign when negative. *)
Definition show (n : Z) : string := pretty n.

(** ** Alerts *)

Definition alertMailOptions (p : Process) : option string * option string :=
  (env p !! "MAIL_USERNAME", env p !! "MAIL_USERNAME").

Definition subject_failed_once (site : Site) : string :=
  "Content Check for " +:+ name site +:+ " failed (once)".

Definition body_failed_once (site : Site) (e : Reason) : string :=
  "The attempt to check the contents of " +:+ url site
  +:+ " failed for this reason: " +:+ Reason_toString e +:+ "."
  +:+ newline +:+ newline +:+ newline
  +:+ "We'll try again in " +:+ show (msgCooldown site) +:+ " hours.".

Definition subject_giving_up (site : Site) : string :=
  "Content Check for " +:+ name site +:+ " failed "
  +:+ show ATTEMPTS_BEFORE_GIVING_UP +:+ " times, we're giving up.".

Definition body_giving_up (site : Site) (e : Reason) : string :=
  "The attempt to check the contents of " +:+ url site
  +:+ " failed for this reason: " +:+ Reason_toString e +:+ "."
  +:+ newline +:+ newline +:+ newline
  +:+ "Since we've already tried again " +:+ show ATTEMPTS_BEFORE_GIVING_UP
  +:+ " times, we're going to stop checking this one until you restart the server.".

Definition subject_contents_changed (site : Site) : string :=
  "Contents have changed for " +:+ name site +:+ "!".

Definition body_contents_changed (site : Site) : string :=
  "After a recent check of " +:+ url site
  +:+ ", we have no longer found the text " +:+ dquote +:+ textMatch site
  +:+ dquote +:+ ". Visit it <a href=" +:+ dquote +:+ url site +:+ dquote
  +:+ " target=" +:+ dquote +:+ "_blank" +:+ dquote +:+ ">here</a>.".

(** [sendAlert] up to its [await]: the debug line, then the call of
    [transporter.sendMail], whose promise is pending when control returns
    to the caller. *)
Definition sendAlert (subject body : string) : M unit :=
  logger LDebug (MsgSending subject);;
  opts ← gets alertMailOptions;
  modify (set_outbox (λ ms,
    ms ++ [({| mail_from := opts.1; mail_to := opts.2;
               mail_subject := subject; mail_text := body |}, Pending)])).

(** [sendAlert] from its [await] on, for the [k]-th call; the result
    tells whether that call was waiting at all.  When [sendMail] resolved
    the second debug line is written and the promise of [sendAlert] is
    fulfilled.  When it rejected the [await] throws, nothing in [sendAlert]
    catches it, and the promise of [sendAlert] is rejected; each of the
    three callers has dropped that promise, so the rejection is
    unhandled. *)
Definition sendAlert_settle (k : nat) (r : SendResult) : M bool :=
  ms ← gets outbox;
  match ms !! k with
  | Some (m, Pending) =>
      match r with
      | SendOk =>
          logger LDebug (MsgSent (mail_subject m));;
          modify (set_outbox (λ ms, <[k := (m, Fulfilled)]> ms));;
          mret true
      | SendThrows e =>
          modify (set_outbox (λ ms, <[k := (m, Rejected e)]> ms));;
          unhandled_rejection
      end
  | _ => mret false
  end.

(** ** The check cycle *)

Definition checkErrorHandler (site : Site) (e : Reason) (msg : LogMsg)
    : M STATUS :=
  logger LError msg;;
  logger LError (MsgReason e);;
  modify (set_failedAttempts (λ fa,
    js_assign (name site) (js_succ (to_number (fa !! name site))) fa));;
  fa ← gets failedAttempts;
  if js_strict_eq (fa !! name site) 1 then
    sendAlert (subject_failed_once site) (body_failed_once site e);;
    mret COOLDOWN
  else if js_gt (fa !! name site) ATTEMPTS_BEFORE_GIVING_UP then
    sendAlert (subject_giving_up site) (body_giving_up site e);;
    mret GAVE_UP
  else
    mret COOLDOWN.

(** [check] from the point where [await fetch(site.url)] comes back. *)
Definition check_resume (site : Site) (r : FetchResult) : M STATUS :=
  match r with
  | FetchThrows e =>
      checkErrorHandler site (ReasonError e) (MsgFetchFailed (name site))
  | FetchOk res =>
      logger LDebug (MsgRequestComplete (url site));;
      if negb (res_status res =? 200) then
        checkErrorHandler site
          (ReasonString ("Status code on HTTP request was "
                         +:+ show (res_status res) +:+ ", not 200"))
          (MsgBadStatus (res_status res) (url site))
      else
        match res_text res with
        | TextThrows e =>
            checkErrorHandler site (ReasonError e)
              (MsgParseFailed (name site) (url site))
        | TextOk html =>
            let hasMatch := includes html (textMatch site) in
            if negb hasMatch then
              logger LWarn (MsgNoMatch (name site));;
              sendAlert (subject_contents_changed site)
                        (body_contents_changed site);;
              mret COOLDOWN
            else
              logger LInfo (MsgFoundMatch (name site));;
              mret WAIT
        end
  end.

(** [check], given what its awaits come back with. *)
Definition check (site : Site) (r : FetchResult) : M STATUS :=
  logger LDebug (MsgMakingRequest (url site));;
  check_resume site r.

(** ** The scheduler *)

(** [handler] up to the first [await] of the [check] it calls: the call
    stays suspended until [fetch] settles. *)
Definition handler_begin (site : Site) : M unit :=
  logger LInfo (MsgCheckInitiated (name site));;
  logger LDebug (MsgMakingRequest (url site));;
  modify (set_fetching (λ fs, fs ++ [site])).

(** The event [error] while nothing listens to it. *)
Definition unheard (ev : string) (ls : list (string * Site)) : Prop :=
  ev = "error" ∧ ev ∉ ls.*1.

Global Instance unheard_dec (ev : string) (ls : list (string * Site)) :
  Decision (unheard ev ls).
Proof. unfold unheard. apply _. Defined.

(** [eventEmitter.emit(ev)]: the listeners registered for [ev] are called
    in registration order, whatever arguments the event carries; each is
    [async () => { await handler(site) }] and runs until [handler]
    suspends.  An [emit] of the event [error] throws when that event has
    no listener. *)
Fixpoint call_listeners (ev : string) (ls : list (string * Site)) : M unit :=
  match ls with
  | [] => mret tt
  | (n, site) :: ls' =>
      (if decide (n = ev) then handler_begin site else mret tt);;
      call_listeners ev ls'
  end.

Definition emit (ev : string) : M unit :=
  ls ← gets listeners;
  if decide (unheard ev ls) then uncaught_exception
  else call_listeners ev ls.

Definition checkCallback (site : Site) : M unit :=
  logger LDebug (MsgTimeoutReached (name site));;
  emit (name site).

Definition setTimeout (site : Site) (delay : Z) : M unit :=
  modify (set_timers (λ ts, ts ++ [(delay, site)])).

(** The [switch] of [handler], on the number [status] is at run time. *)
Definition dispatch (site : Site) (status : Z) : M unit :=
  if status =? STATUS_value COOLDOWN then
    let delay := msgCooldown site in
    logger LDebug (MsgGotCooldown delay);;
    setTimeout site delay
  else if status =? STATUS_value WAIT then
    let delay := interval site in
    logger LDebug (MsgGotWait delay);;
    setTimeout site delay
  else if status =? STATUS_value READY then
    logger LDebug MsgGotReady;;
    checkCallback site
  else if status =? STATUS_value GAVE_UP then
    logger LDebug MsgGotGaveUp
  else
    logger LError (MsgDefaultCase (name site) status);;
    process_exit 1.

(** [handler] from the point where the [fetch] of its [check] settles. *)
Definition handler_resume (site : Site) (r : FetchResult) : M unit :=
  status ← check_resume site r;
  dispatch site (STATUS_value status).

(** [handler], given what the awaits of its [check] come back with. *)
Definition handler (site : Site) (r : FetchResult) : M unit :=
  logger LInfo (MsgCheckInitiated (name site));;
  status ← check site r;
  dispatch site (STATUS_value status).

(** ** Startup *)

Definition verifyExistenceOfImportantEnvVars : M unit :=
  e ← gets env;
  if decide (e !! "MAIL_USERNAME" = None ∨ e !! "MAIL_APP_PASSWORD" = None)
  then
    logger LError MsgMissingEnv;;
    process_exit 1
  else mret tt.

Definition createTransport : M unit :=
  logger LInfo MsgInitializingTransport;;
  logger LInfo MsgTransportInitialized.

Definition verifyTransport (v : VerifyResult) : M unit :=
  logger LInfo MsgVerifying;;
  match v with
  | VerifyOk => logger LInfo MsgAuthorized
  | VerifyThrows e =>
      logger LError MsgAuthorizationFailed;;
      logger LError (MsgVerifyError e);;
      process_exit 1
  end.

(** [eventEmitter.on(ev, callback)] for the callback of [site]: an
    emitter that has listeners for the event [newListener] emits that
    event before it adds the listener, and the listener is added last in
    the list of [ev]. *)
Definition on (ev : string) (site : Site) : M unit :=
  emit "newListener";;
  modify (set_listeners (λ ls, ls ++ [(ev, site)])).

(** The body of [for (const site of sites)]. *)
Definition register (site : Site) : M unit :=
  logger LInfo (MsgSettingListener (name site));;
  on (name site) site;;
  modify (set_failedAttempts (js_assign (name site) (Num 0)));;
  logger LInfo (MsgEmittingInitial (name site));;
  emit (name site).

Fixpoint register_all (ss : list Site) : M unit :=
  match ss with
  | [] => mret tt
  | site :: ss' => register site;; register_all ss'
  end.

(** [main] over a list of sites, given what [transporter.verify] comes
    back with. *)
Definition main_with (ss : list Site) (v : VerifyResult) : M unit :=
  verifyExistenceOfImportantEnvVars;;
  createTransport;;
  verifyTransport v;;
  logger LDebug MsgIterating;;
  register_all ss.

Definition main : VerifyResult → M unit := main_with sites.

(** The process once the synchronous part of [main] has run. *)
Definition start (ss : list Site) (e : gmap string string) (v : VerifyResult)
    : Process :=
  (main_with ss v (boot e)).2.

(** ** The event loop

    Between two turns of the event loop one of three things happens: the
    [fetch] of a suspended [handler] settles, a timer fires, or a
    [sendMail] settles.  The loop picks any of them; a process that has
    exited takes no step.  A step that ends in an unhandled rejection or
    in an uncaught exception is the last one: it leaves the process
    exited. *)
Inductive Event :=
  | FetchSettles (i : nat) (r : FetchResult)
  | TimerFires (j : nat)
  | MailSettles (k : nat) (r : SendResult).

Definition step (ev : Event) (p : Process) : option Process :=
  match exited p with
  | Some _ => None
  | None =>
      match ev with
      | FetchSettles i r =>
          site ← fetching p !! i;
          Some (handler_resume site r (set_fetching (delete i) p)).2
      | TimerFires j =>
          t ← timers p !! j;
          Some (checkCallback t.2 (set_timers (delete j) p)).2
      | MailSettles k r =>
          match sendAlert_settle k r p with
          | (Some true, p') => Some p'
          | (Some false, _) => None
          | (None, p') => Some p'
          end
      end
  end.

Fixpoint run (evs : list Event) (p : Process) : option Process :=
  match evs with
  | [] => Some p
  | ev :: evs' => p' ← step ev p; run evs' p'
  end.

(** ** Vocabulary of the statements *)

(** The body text of a fetch that came back with status 200 and a body
    that could be read; [None] for every other outcome. *)
Definition readable (r : FetchResult) : option string :=
  match r with
  | FetchThrows _ => None
  | FetchOk res =>
      if res_status res =? 200 then
        match res_text res with
        | TextOk html => Some html
        | TextThrows _ => None
        end
      else None
  end.

(** The error a failed fetch is reported with (of no use for a fetch
    that did not fail). *)
Definition failure_reason (r : FetchResult) : Reason :=
  match r with
  | FetchThrows e => ReasonError e
  | FetchOk res =>
      if res_status res =? 200 then
        match res_text res with
        | TextThrows e => ReasonError e
        | TextOk _ => ReasonString EmptyString
        end
      else ReasonString ("Status code on HTTP request was "
                         +:+ show (res_status res) +:+ ", not 200")
  end.

(** The mail a call [sendAlert(subject, body)] hands to the transport. *)
Definition alert (p : Process) (subject body : string) : Mail :=
  {| mail_from := env p !! "MAIL_USERNAME"; mail_to := env p !! "MAIL_USERNAME";
     mail_subject := subject; mail_text := body |}.

(** The alerts sent between two states: subject and body of the mails
    that joined the outbox. *)
Definition alerts_since (p p' : Process) : list (string * string) :=
  (λ m, (mail_subject m.1, mail_text m.1)) <$> drop (length (outbox p)) (outbox p').

(** The names of the sites with a check in flight or a timer armed. *)
Definition pending_names (p : Process) : list string :=
  (name <$> fetching p) ++ ((λ t, name t.2) <$> timers p).

Global Instance JsError_eq_dec : EqDecision JsError.
Proof. solve_decision. Defined.
Global Instance Reason_eq_dec : EqDecision Reason.
Proof. solve_decision. Defined.
Global Instance LogLevel_eq_dec : EqDecision LogLevel.
Proof. solve_decision. Defined.
Global Instance LogMsg_eq_dec : EqDecision LogMsg.
Proof. solve_decision. Defined.

(** How many checks of the site called [nm] have been started: the number
    of times [handler] wrote its first log line for it. *)
Definition initiated (nm : string) (p : Process) : nat :=
  length (filter (λ l, l = (LInfo, MsgCheckInitiated nm)) (logged p)).

(** A site checked over and over, the awaits of the successive checks
    coming back with [rs]. *)
Fixpoint check_seq (site : Site) (rs : list FetchResult) : M (list STATUS) :=
  match rs with
  | [] => mret []
  | r :: rs' =>
      st ← check site r;
      sts ← check_seq site rs';
      mret (st :: sts)
  end.

Definition failures (rs : list FetchResult) : Z :=
  Z.of_nat (length (filter (λ r, readable r = None) rs)).

(** What counting up to [m] from 0 with [++] arrives at. *)
Definition saturated (m : Z) : Z := Z.min m (MAX_SAFE_INTEGER + 1).

Global Arguments saturated : simpl never.

(** [s] ends with the character [c]. *)
Definition ends_with (s : string) (c : Ascii.ascii) : Prop :=
  ∃ s', s = s' +:+ String c EmptyString.

(** A log line other than the first line of [handler]. *)
Definition quiet (l : LogLevel * LogMsg) : Prop :=
  ∀ nm, l ≠ (LInfo, MsgCheckInitiated nm).

(** The counters of [p] are numbers that [p'] has not lowered. *)
Definition counters_le (p p' : Process) : Prop :=
  ∀ nm n, failedAttempts p !! nm = Some (Num n) →
          ∃ n', failedAttempts p' !! nm = Some (Num n') ∧ n ≤ n'.

(** What a check leaves alone, and what it may only extend. *)
Definition extends (st : STATUS) (p p' : Process) : Prop :=
  st ≠ READY ∧
  env p' = env p ∧ listeners p' = listeners p ∧ fetching p' = fetching p ∧
  timers p' = timers p ∧ exited p' = exited p ∧
  (∃ ls, logged p' = logged p ++ ls ∧ Forall quiet ls) ∧
  (∃ ms, outbox p' = outbox p ++ ms) ∧
  counters_le p p'.

(** The status a check comes to, from what its awaits came back with and
    the counter slot of the site before the check. *)
Definition verdict (site : Site) (r : FetchResult) (slot : option jsnum)
    : STATUS :=
  match readable r with
  | Some html => if includes html (textMatch site) then WAIT else COOLDOWN
  | None =>
      match js_succ (to_number slot) with
      | Num k =>
          if k =? 1 then COOLDOWN
          else if ATTEMPTS_BEFORE_GIVING_UP <? k then GAVE_UP
          else COOLDOWN
      | NaN => COOLDOWN
      end
  end.

(** The timers the switch of [handler] arms for a status. *)
Definition armed (site : Site) (st : STATUS) : list (Z * Site) :=
  match st with
  | COOLDOWN => [(msgCooldown site, site)]
  | WAIT => [(interval site, site)]
  | READY | GAVE_UP => []
  end.

(** The sites whose listener an [emit] of [ev] calls. *)
Definition matched (ev : string) (ls : list (string * Site)) : list Site :=
  snd <$> filter (λ l, l.1 = ev) ls.

(** Every listener is registered under the name of its own site, no name
    has two listeners, and no site name has two pending checks. *)
Definition consistent (p : Process) : Prop :=
  (∀ l, l ∈ listeners p → l.1 = name l.2) ∧
  NoDup (listeners p).*1 ∧
  NoDup (pending_names p).

(** Every counter that holds a number holds at most 4, and a site whose
    counter is at 4 has nothing pending. *)
Definition bounded (p : Process) : Prop :=
  ∀ nm n, failedAttempts p !! nm = Some (Num n) →
          0 ≤ n ≤ 3 ∨ (n = 4 ∧ nm ∉ pending_names p).

(** ** Concrete inputs *)

Definition env_ok : gmap string string :=
  {[ "MAIL_USERNAME" := "monitor@example.org"; "MAIL_APP_PASSWORD" := "secret" ]}.

Definition fetch_failed : FetchResult :=
  FetchThrows {| error_toString := "TypeError: fetch failed" |}.

Definition page (code : Z) (html : string) : FetchResult :=
  FetchOk {| res_status := code; res_text := TextOk html |}.

Definition page_up : FetchResult :=
  page 200 "<p>This resource is temporarily unavailable.</p>".

Definition page_changed : FetchResult :=
  page 200 "<p>Book this room</p>".

Definition smtp_down : SendResult :=
  SendThrows {| error_toString := "Error: connect ETIMEDOUT" |}.

(** The first check finds the page changed; then the send of its alert
    fails. *)
Definition alert_pending : option Process :=
  run [FetchSettles 0 page_changed] (start sites env_ok VerifyOk).

Definition alert_failed : option Process :=
  run [FetchSettles 0 page_changed; MailSettles 0 smtp_down]
      (start sites env_ok VerifyOk).


(** The process once the first check has found the page changed. *)
Definition changed_state : Process :=
  (handler_resume LibTheatreRoom page_changed
     (set_fetching (delete 0%nat) (start sites env_ok VerifyOk))).2.

(** The first check fails; after the cooldown the second one finds the
    page as expected. *)
Definition failure_then_success : option Process :=
  run [FetchSettles 0 fetch_failed; TimerFires 0; FetchSettles 0 page_up]
      (start sites env_ok VerifyOk).

(** Three failed checks in a row, each followed by its cooldown. *)
Definition three_failures : list Event :=
  [FetchSettles 0 fetch_failed; TimerFires 0;
   FetchSettles 0 fetch_failed; TimerFires 0;
   FetchSettles 0 fetch_failed; TimerFires 0].

Definition after_three_failures : Process :=
  default (boot ∅) (run three_failures (start sites env_ok VerifyOk)).

(** A second site registered under the name of the first. *)
Definition twin : Site :=
  {| name := "LibTheatreRoom";
     url := "https://example.org/rooms";
     textMatch := "open";
     interval := 1000;
     msgCooldown := 2000;
     status := READY |}.

Definition twins : list Site := [ LibTheatreRoom; twin ].

(** Failed checks with checks that find the page as expected in between. *)
Definition interleaved : list FetchResult :=
  [fetch_failed; page_up; fetch_failed; page_up; page_up; fetch_failed;
   page_up; fetch_failed].

(** ** Vocabulary of the further properties *)

(** The listeners [main] registers for a list of sites. *)
Definition registrations (ss : list Site) : list (string * Site) :=
  (λ s, (name s, s)) <$> ss.

(** The alerts a check sends, subject and body, from what its awaits came
    back with and the counter slot of the site before the check. *)
Definition alerts_of (site : Site) (r : FetchResult) (slot : option jsnum)
    : list (string * string) :=
  match readable r with
  | Some html =>
      if includes html (textMatch site) then []
      else [(subject_contents_changed site, body_contents_changed site)]
  | None =>
      match js_succ (to_number slot) with
      | Num k =>
          if k =? 1 then
            [(subject_failed_once site, body_failed_once site (failure_reason r))]
          else if ATTEMPTS_BEFORE_GIVING_UP <? k then
            [(subject_giving_up site, body_giving_up site (failure_reason r))]
          else []
      | NaN => []
      end
  end.

(** The alerts the step for an event sends. *)
Definition step_alerts (ev : Event) (p : Process) : list (string * string) :=
  match ev with
  | FetchSettles i r =>
      match fetching p !! i with
      | Some site => alerts_of site r (failedAttempts p !! name site)
      | None => []
      end
  | _ => []
  end.

(** How many mails with a given subject were handed to the transport. *)
Definition sent_with (subject : string) (p : Process) : nat :=
  length (filter (λ m, mail_subject m = subject) (outbox p).*1).

(** Every check in flight and every timer is for a configured site. *)
Definition known (ss : list Site) (p : Process) : Prop :=
  (∀ s, s ∈ fetching p → s ∈ ss) ∧ (∀ t, t ∈ timers p → t.2 ∈ ss).

(** Every configured site has a check in flight or a timer armed, or its
    counter stands at 4. *)
Definition monitored (ss : list Site) (p : Process) : Prop :=
  ∀ s, s ∈ ss →
    name s ∈ pending_names p ∨ failedAttempts p !! name s = Some (Num 4).

(** The number of "failed (once)" and of "giving up" mails of every
    configured site whose counter was stored follows from its counter. *)
Definition accounted (ss : list Site) (p : Process) : Prop :=
  ∀ s, s ∈ ss → name s ≠ "__proto__" →
    ∃ n, failedAttempts p !! name s = Some (Num n) ∧
         sent_with (subject_failed_once s) p
           = (if decide (1 ≤ n) then 1%nat else 0%nat) ∧
         sent_with (subject_giving_up s) p
           = (if decide (4 ≤ n) then 1%nat else 0%nat).

(** What holds of a process that started with uniquely named sites none
    of which is called [newListener]. *)
Definition healthy (ss : list Site) (p : Process) : Prop :=
  consistent p ∧ bounded p ∧ listeners p = registrations ss ∧
  known ss p ∧ monitored ss p ∧ accounted ss p.

(** Every mail goes from and to the address in [MAIL_USERNAME]. *)
Definition addressed (e : gmap string string) (p : Process) : Prop :=
  ∀ m, m ∈ (outbox p).*1 →
    mail_from m = e !! "MAIL_USERNAME" ∧ mail_to m = e !! "MAIL_USERNAME".

(** Every timer runs for one of the two intervals of its site. *)
Definition paced (p : Process) : Prop :=
  ∀ t, t ∈ timers p → t.1 = interval t.2 ∨ t.1 = msgCooldown t.2.

(** A site that was never registered, and a site that matches any page. *)
Definition stranger : Site :=
  {| name := "Unregistered";
     url := "https://example.org/none";
     textMatch := "x";
     interval := 1000;
     msgCooldown := 2000;
     status := READY |}.

Definition lenient : Site :=
  {| name := "Lenient";
     url := "https://example.org/any";
     textMatch := EmptyString;
     interval := 1000;
     msgCooldown := 2000;
     status := READY |}.

Definition env_blank : gmap string string :=
  {[ "MAIL_USERNAME" := EmptyString; "MAIL_APP_PASSWORD" := EmptyString ]}.

(** The listeners are those [main] registers for [ss], and every check in
    flight and every timer is for one of these sites. *)
Definition wired (ss : list Site) (p : Process) : Prop :=
  listeners p = registrations ss ∧ known ss p.

(** The event is a [sendMail] that rejects. *)
Definition rejects (ev : Event) : bool :=
  match ev with
  | MailSettles _ (SendThrows _) => true
  | _ => false
  end.

(** A site named after the event that [eventEmitter.on] emits, and a site
    named after the accessor that a plain object inherits. *)
Definition eavesdropper : Site :=
  {| name := "newListener";
     url := "https://example.org/first";
     textMatch := "open";
     interval := 1000;
     msgCooldown := 2000;
     status := READY |}.

Definition inherited : Site :=
  {| name := "__proto__";
     url := "https://example.org/proto";
     textMatch := "open";
     interval := 1000;
     msgCooldown := 2000;
     status := READY |}.

(** A site named after the event whose [emit] throws when nothing
    listens. *)
Definition mistaken : Site :=
  {| name := "error";
     url := "https://example.org/error";
     textMatch := "open";
     interval := 1000;
     msgCooldown := 2000;
     status := READY |}.

Ltac quiet_lines := repeat constructor; intros ?; discriminate.

Ltac run_M :=
  unfold check, check_resume, checkErrorHandler, sendAlert, logger, modify,
    gets, alertMailOptions;
  unfold mbind, M_bind, mret, M_ret; simpl.

(** * Lemmas *)

(** ** Strings *)

Lemma append_nil_l (s : string) : EmptyString +:+ s = s.
Proof. reflexivity. Qed.

Lemma append_cons (a : Ascii.ascii) (s t : string) :
  String a s +:+ t = String a (s +:+ t).
Proof. reflexivity. Qed.

Lemma append_assoc (a b c : string) : (a +:+ b) +:+ c = a +:+ (b +:+ c).
Proof.
  induction a as [|x a IH]; [done|]. rewrite !append_cons. by f_equal.
Qed.

Lemma prefix_spec (s1 s2 : string) :
  String.prefix s1 s2 = true ↔ ∃ post, s2 = s1 +:+ post.
Proof.
  revert s2. induction s1 as [|a s1 IH]; intros s2.
  - split; [intros _; exists s2; reflexivity | by destruct s2].
  - destruct s2 as [|b s2]; simpl.
    + split; [discriminate | intros [post H]; discriminate].
    + destruct (Ascii.ascii_dec a b) as [->|Hne].
      * rewrite IH. split; intros [post H]; exists post.
        -- rewrite append_cons. by f_equal.
        -- rewrite append_cons in H. by injection H.
      * split; [discriminate |].
        intros [post H]. rewrite append_cons in H. congruence.
Qed.

Lemma includes_unfold (s search : string) :
  includes s search =
    if String.prefix search s then true
    else match s with
         | EmptyString => false
         | String _ s' => includes s' search
         end.
Proof. by destruct s. Qed.

(** [includes] decides the occurrence of [search] inside [s]. *)
Lemma includes_spec (s search : string) :
  includes s search = true ↔ ∃ pre post, s = pre +:+ search +:+ post.
Proof.
  induction s as [|a s IH]; rewrite includes_unfold.
  - destruct (String.prefix search EmptyString) eqn:Hp.
    + split; [intros _ | reflexivity].
      apply prefix_spec in Hp as [post Hp]. by exists EmptyString, post.
    + split; [discriminate |].
      intros [pre [post H]]. destruct pre; [|discriminate].
      rewrite append_nil_l in H.
      assert (String.prefix search EmptyString = true) by (apply prefix_spec; eauto).
      congruence.
  - destruct (String.prefix search (String a s)) eqn:Hp.
    + split; [intros _ | reflexivity].
      apply prefix_spec in Hp as [post Hp]. by exists EmptyString, post.
    + rewrite IH. split.
      * intros [pre [post ->]]. by exists (String a pre), post.
      * intros [pre [post H]]. destruct pre as [|b pre].
        -- rewrite append_nil_l in H.
           assert (String.prefix search (String a s) = true)
             by (apply prefix_spec; eauto).
           congruence.
        -- rewrite append_cons in H. injection H as _ ->. by exists pre, post.
Qed.

Lemma ends_with_append (a b : string) (c : Ascii.ascii) :
  ends_with b c → ends_with (a +:+ b) c.
Proof. intros [b' ->]. exists (a +:+ b'). by rewrite append_assoc. Qed.

Lemma ends_with_inj (s : string) (c1 c2 : Ascii.ascii) :
  ends_with s c1 → ends_with s c2 → c1 = c2.
Proof.
  intros [s1 ->] [s2 E]. revert s2 E.
  induction s1 as [|x s1 IH]; intros [|y s2] E.
  - by injection E.
  - rewrite append_nil_l, append_cons in E. injection E as _ E.
    by destruct s2.
  - rewrite append_nil_l, append_cons in E. injection E as _ E.
    by destruct s1.
  - rewrite !append_cons in E. injection E as _ E. by apply (IH s2).
Qed.

Lemma subjects_distinct (site site' : Site) :
  subject_failed_once site ≠ subject_giving_up site' ∧
  subject_failed_once site ≠ subject_contents_changed site' ∧
  subject_giving_up site ≠ subject_contents_changed site'.
Proof.
  assert (∀ s, ends_with (subject_failed_once s) ")"%char) as H1.
  { intros s. do 2 apply ends_with_append. by exists " failed (once". }
  assert (∀ s, ends_with (subject_giving_up s) "."%char) as H2.
  { intros s. do 4 apply ends_with_append. by exists " times, we're giving up". }
  assert (∀ s, ends_with (subject_contents_changed s) "!"%char) as H3.
  { intros s. do 2 apply ends_with_append. by exists EmptyString. }
  repeat split; intros E.
  - pose proof (H1 site) as Ha. rewrite E in Ha.
    by pose proof (ends_with_inj _ _ _ Ha (H2 site')).
  - pose proof (H1 site) as Ha. rewrite E in Ha.
    by pose proof (ends_with_inj _ _ _ Ha (H3 site')).
  - pose proof (H2 site) as Ha. rewrite E in Ha.
    by pose proof (ends_with_inj _ _ _ Ha (H3 site')).
Qed.

(** ** Counters *)

Lemma succ_double_exact (n : Z) :
  n ≤ MAX_SAFE_INTEGER → succ_double n = n + 1.
Proof. intros H. unfold succ_double. by rewrite (proj2 (Z.leb_le _ _) H). Qed.

Lemma succ_double_le (n : Z) : n ≤ succ_double n.
Proof. unfold succ_double. destruct (n <=? MAX_SAFE_INTEGER); lia. Qed.

Lemma MAX_SAFE_INTEGER_ge : 3 ≤ MAX_SAFE_INTEGER.
Proof. vm_compute. discriminate. Qed.

Lemma succ_double_above (n : Z) :
  succ_double n > ATTEMPTS_BEFORE_GIVING_UP ↔ ATTEMPTS_BEFORE_GIVING_UP ≤ n.
Proof.
  pose proof MAX_SAFE_INTEGER_ge. unfold succ_double, ATTEMPTS_BEFORE_GIVING_UP.
  destruct (Z.leb_spec n MAX_SAFE_INTEGER); lia.
Qed.

Lemma succ_double_saturated (m : Z) :
  succ_double (saturated m) = saturated (m + 1).
Proof.
  unfold succ_double, saturated.
  destruct (Z.leb_spec (Z.min m (MAX_SAFE_INTEGER + 1)) MAX_SAFE_INTEGER); lia.
Qed.

Lemma saturated_above (m : Z) :
  ATTEMPTS_BEFORE_GIVING_UP ≤ saturated m ↔ ATTEMPTS_BEFORE_GIVING_UP ≤ m.
Proof.
  pose proof MAX_SAFE_INTEGER_ge. unfold saturated, ATTEMPTS_BEFORE_GIVING_UP.
  lia.
Qed.

Lemma counters_le_refl (p : Process) : counters_le p p.
Proof. intros nm n H. exists n. split; [done | lia]. Qed.

Lemma counters_le_trans (p q r : Process) :
  counters_le p q → counters_le q r → counters_le p r.
Proof.
  intros Hpq Hqr nm n H. destruct (Hpq nm n H) as [n1 [H1 ?]].
  destruct (Hqr nm n1 H1) as [n2 [H2 ?]]. exists n2. split; [done | lia].
Qed.

Lemma counters_le_same (p q : Process) :
  failedAttempts q = failedAttempts p → counters_le p q.
Proof. intros E nm n H. exists n. rewrite E. split; [done | lia]. Qed.

Lemma failures_cons (r : FetchResult) (rs : list FetchResult) :
  failures (r :: rs) =
    (if decide (readable r = None) then 1 else 0) + failures rs.
Proof.
  unfold failures. rewrite filter_cons.
  destruct (decide (readable r = None)); simpl length; lia.
Qed.

Lemma failures_app (rs1 rs2 : list FetchResult) :
  failures (rs1 ++ rs2) = failures rs1 + failures rs2.
Proof.
  unfold failures. rewrite filter_app, length_app. lia.
Qed.

Lemma drop_own_length {A} (l k : list A) : drop (length l) (l ++ k) = k.
Proof. induction l; [done | by simpl]. Qed.

(** An assignment to a key that is an own property, or that is not
    [__proto__], stores the value. *)
Lemma js_assign_own (key : string) (v : jsnum) (fa : gmap string jsnum) :
  is_Some (fa !! key) → js_assign key v fa = <[key := v]> fa.
Proof.
  intros [x Hx]. unfold js_assign. rewrite decide_False; [done|].
  intros [_ H]. congruence.
Qed.

Lemma js_assign_ordinary (key : string) (v : jsnum) (fa : gmap string jsnum) :
  key ≠ "__proto__" → js_assign key v fa = <[key := v]> fa.
Proof. intros H. unfold js_assign. rewrite decide_False; [done|]. by intros [? _]. Qed.

(** An assignment to [__proto__] on an object that has no such own
    property stores nothing. *)
Lemma js_assign_inherited (v : jsnum) (fa : gmap string jsnum) :
  fa !! "__proto__" = None → js_assign "__proto__" v fa = fa.
Proof. intros H. unfold js_assign. by rewrite decide_True. Qed.

Lemma js_assign_lookup_ne (key k : string) (v : jsnum) (fa : gmap string jsnum) :
  key ≠ k → js_assign key v fa !! k = fa !! k.
Proof.
  intros H. unfold js_assign. destruct (decide _); [done|].
  by rewrite lookup_insert_ne.
Qed.

Lemma js_assign_lookup (key : string) (v : jsnum) (fa : gmap string jsnum) :
  js_assign key v fa !! key =
    if decide (key = "__proto__" ∧ fa !! key = None) then None else Some v.
Proof.
  unfold js_assign. destruct (decide _) as [[_ H]|_]; [done|].
  by rewrite lookup_insert_eq.
Qed.

(** Whatever the key, a value that is no number reads as no number after
    it was assigned. *)
Lemma js_assign_NaN (key : string) (fa : gmap string jsnum) :
  to_number (js_assign key NaN fa !! key) = NaN.
Proof. rewrite js_assign_lookup. by destruct (decide _). Qed.

(** ** One check *)

(** A check that read the body counts nothing: whatever the text match
    says, the state changes by log lines and at most one alert. *)
Lemma check_resume_found (site : Site) (r : FetchResult) (html : string)
    (p : Process) :
  readable r = Some html →
  includes html (textMatch site) = true →
  check_resume site r p =
    (Some WAIT,
     set_logged (λ ls, ls ++ [(LInfo, MsgFoundMatch (name site))])
       (set_logged (λ ls, ls ++ [(LDebug, MsgRequestComplete (url site))]) p)).
Proof.
  intros Hr Hi. destruct r as [e|res]; [discriminate|].
  unfold readable in Hr. unfold check_resume.
  destruct (res_status res =? 200); [|discriminate].
  destruct (res_text res); [|discriminate].
  injection Hr as ->. rewrite Hi. reflexivity.
Qed.

Lemma check_resume_not_found (site : Site) (r : FetchResult) (html : string)
    (p : Process) :
  readable r = Some html →
  includes html (textMatch site) = false →
  check_resume site r p =
    (Some COOLDOWN,
     set_outbox (λ ms, ms ++ [(alert p (subject_contents_changed site)
                                       (body_contents_changed site), Pending)])
       (set_logged (λ ls, ls ++ [(LDebug, MsgSending (subject_contents_changed site))])
          (set_logged (λ ls, ls ++ [(LWarn, MsgNoMatch (name site))])
             (set_logged (λ ls, ls ++ [(LDebug, MsgRequestComplete (url site))]) p)))).
Proof.
  intros Hr Hi. destruct r as [e|res]; [discriminate|].
  unfold readable in Hr. unfold check_resume.
  destruct (res_status res =? 200); [|discriminate].
  destruct (res_text res); [|discriminate].
  injection Hr as ->. rewrite Hi. reflexivity.
Qed.

(** Every other outcome goes through [checkErrorHandler]. *)
Lemma check_resume_failed (site : Site) (r : FetchResult) (p : Process) :
  readable r = None →
  ∃ msg pre,
    check_resume site r p =
      checkErrorHandler site (failure_reason r) msg (set_logged (λ ls, ls ++ pre) p)
    ∧ Forall quiet pre.
Proof.
  intros Hr. destruct r as [e|res].
  - exists (MsgFetchFailed (name site)), []. simpl. split; [|constructor].
    replace (set_logged (λ ls, ls ++ []) p) with p; [done|].
    destruct p; unfold set_logged; simpl. by rewrite app_nil_r.
  - unfold readable in Hr. unfold check_resume, failure_reason.
    destruct (res_status res =? 200) eqn:Hs; simpl.
    + destruct (res_text res) as [html|e]; [discriminate|].
      exists (MsgParseFailed (name site) (url site)),
             [(LDebug, MsgRequestComplete (url site))].
      split; [done|]. repeat constructor; intros nm; discriminate.
    + exists (MsgBadStatus (res_status res) (url site)),
             [(LDebug, MsgRequestComplete (url site))].
      split; [done|]. repeat constructor; intros nm; discriminate.
Qed.

(** What [checkErrorHandler] does to a counter that holds a number. *)
Lemma checkErrorHandler_counted (site : Site) (e : Reason) (msg : LogMsg)
    (p : Process) (n : Z) :
  failedAttempts p !! name site = Some (Num n) →
  let q := set_failedAttempts (λ fa, <[name site := Num (succ_double n)]> fa)
             (set_logged (λ ls, ls ++ [(LError, MsgReason e)])
                (set_logged (λ ls, ls ++ [(LError, msg)]) p)) in
  checkErrorHandler site e msg p =
    if succ_double n =? 1 then
      (Some COOLDOWN,
       set_outbox (λ ms, ms ++ [(alert p (subject_failed_once site)
                                         (body_failed_once site e), Pending)])
         (set_logged (λ ls, ls ++ [(LDebug, MsgSending (subject_failed_once site))]) q))
    else if ATTEMPTS_BEFORE_GIVING_UP <? succ_double n then
      (Some GAVE_UP,
       set_outbox (λ ms, ms ++ [(alert p (subject_giving_up site)
                                         (body_giving_up site e), Pending)])
         (set_logged (λ ls, ls ++ [(LDebug, MsgSending (subject_giving_up site))]) q))
    else (Some COOLDOWN, q).
Proof.
  intros H. run_M. rewrite H. simpl.
  rewrite js_assign_own by (by rewrite H). rewrite lookup_insert_eq. simpl.
  unfold js_gt, alert, set_outbox, set_logged, set_failedAttempts. simpl.
  destruct (succ_double n =? 1); [simpl; by rewrite H, js_assign_own by (by rewrite H)|].
  destruct (ATTEMPTS_BEFORE_GIVING_UP <? succ_double n); simpl;
    by rewrite H, js_assign_own by (by rewrite H).
Qed.

(** A counter that holds no number is stepped to [NaN] and reads as no
    number afterwards: no alert, no giving up. *)
Lemma checkErrorHandler_uncounted (site : Site) (e : Reason) (msg : LogMsg)
    (p : Process) :
  to_number (failedAttempts p !! name site) = NaN →
  checkErrorHandler site e msg p =
    (Some COOLDOWN,
     set_failedAttempts (js_assign (name site) NaN)
       (set_logged (λ ls, ls ++ [(LError, MsgReason e)])
          (set_logged (λ ls, ls ++ [(LError, msg)]) p))).
Proof.
  intros H. run_M. rewrite H. simpl.
  pose proof (js_assign_NaN (name site) (failedAttempts p)) as Hn.
  unfold js_strict_eq, js_gt.
  destruct (js_assign (name site) NaN (failedAttempts p) !! name site)
    as [[n|]|]; [discriminate|..];
    unfold set_failedAttempts; simpl; by rewrite H.
Qed.

Lemma checkErrorHandler_frame (site : Site) (e : Reason) (msg : LogMsg)
    (p : Process) :
  ∃ st p', checkErrorHandler site e msg p = (Some st, p') ∧ extends st p p'.
Proof.
  destruct (failedAttempts p !! name site) as [[n|]|] eqn:Hc.
  - rewrite (checkErrorHandler_counted _ _ _ _ n); [|done].
    assert (counters_le p
      (set_failedAttempts (λ fa, <[name site := Num (succ_double n)]> fa) p))
      as Hle.
    { intros nm k Hk. simpl. destruct (decide (name site = nm)) as [<-|Hne].
      - rewrite lookup_insert_eq. exists (succ_double n). split; [done|].
        rewrite Hc in Hk. injection Hk as ->. apply succ_double_le.
      - rewrite lookup_insert_ne by done. exists k. split; [done | lia]. }
    destruct (succ_double n =? 1);
      [|destruct (ATTEMPTS_BEFORE_GIVING_UP <? succ_double n)];
      eexists _, _; (split; [done|]); unfold extends; simpl;
      repeat split; try done.
    + eexists. rewrite <- !app_assoc. split; [done | quiet_lines].
    + by eexists.
    + eexists. rewrite <- !app_assoc. split; [done | quiet_lines].
    + by eexists.
    + eexists. rewrite <- !app_assoc. split; [done | quiet_lines].
    + exists []. by rewrite app_nil_r.
  - rewrite checkErrorHandler_uncounted; [|by rewrite Hc].
    eexists _, _; (split; [done|]); unfold extends; simpl;
      repeat split; try done.
    + eexists. rewrite <- !app_assoc. split; [done | quiet_lines].
    + exists []. by rewrite app_nil_r.
    + intros nm k Hk. simpl. destruct (decide (name site = nm)) as [<-|Hne].
      * congruence.
      * rewrite js_assign_lookup_ne by done. exists k. split; [done | lia].
  - rewrite checkErrorHandler_uncounted; [|by rewrite Hc].
    eexists _, _; (split; [done|]); unfold extends; simpl;
      repeat split; try done.
    + eexists. rewrite <- !app_assoc. split; [done | quiet_lines].
    + exists []. by rewrite app_nil_r.
    + intros nm k Hk. simpl. destruct (decide (name site = nm)) as [<-|Hne].
      * congruence.
      * rewrite js_assign_lookup_ne by done. exists k. split; [done | lia].
Qed.

Lemma check_resume_frame (site : Site) (r : FetchResult) (p : Process) :
  ∃ st p', check_resume site r p = (Some st, p') ∧ extends st p p'.
Proof.
  destruct (readable r) as [html|] eqn:Hr.
  - destruct (includes html (textMatch site)) eqn:Hi.
    + rewrite (check_resume_found _ _ _ _ Hr Hi).
      eexists _, _. split; [done|]. unfold extends. simpl.
      repeat split; try done.
      * eexists. rewrite <- !app_assoc. split; [done | quiet_lines].
      * exists []. by rewrite app_nil_r.
      * by apply counters_le_same.
    + rewrite (check_resume_not_found _ _ _ _ Hr Hi).
      eexists _, _. split; [done|]. unfold extends. simpl.
      repeat split; try done.
      * eexists. rewrite <- !app_assoc. split; [done | quiet_lines].
      * by eexists.
      * by apply counters_le_same.
  - destruct (check_resume_failed site r p Hr) as [msg [pre [-> Hq]]].
    destruct (checkErrorHandler_frame site (failure_reason r) msg
                (set_logged (λ ls, ls ++ pre) p))
      as [st [p' [-> (Hst & He & Hl & Hf & Ht & Hx & [ls [Hls Hqs]] & Hms & Hle)]]].
    exists st, p'. split; [done|]. unfold extends.
    repeat split; try done.
    exists (pre ++ ls). rewrite Hls. simpl. rewrite <- app_assoc.
    split; [done | by apply Forall_app].
Qed.

Lemma check_unfold (site : Site) (r : FetchResult) (p : Process) :
  check site r p =
    check_resume site r
      (set_logged (λ ls, ls ++ [(LDebug, MsgMakingRequest (url site))]) p).
Proof. reflexivity. Qed.

Lemma check_frame (site : Site) (r : FetchResult) (p : Process) :
  ∃ st p', check site r p = (Some st, p') ∧ extends st p p'.
Proof.
  rewrite check_unfold.
  destruct (check_resume_frame site r
    (set_logged (λ ls, ls ++ [(LDebug, MsgMakingRequest (url site))]) p))
    as [st [p' [-> (Hst & He & Hl & Hf & Ht & Hx & [ls [Hls Hq]] & Hms & Hle)]]].
  exists st, p'. split; [done|]. unfold extends. repeat split; try done.
  exists ((LDebug, MsgMakingRequest (url site)) :: ls). rewrite Hls. simpl.
  rewrite <- app_assoc. split; [done|]. constructor; [|done].
  intros nm; discriminate.
Qed.

Lemma check_resume_counter (site : Site) (r : FetchResult) (p : Process) :
  failedAttempts (check_resume site r p).2 =
    match readable r with
    | Some _ => failedAttempts p
    | None =>
        js_assign (name site)
          (js_succ (to_number (failedAttempts p !! name site)))
          (failedAttempts p)
    end.
Proof.
  destruct (readable r) as [html|] eqn:Hr.
  - destruct (includes html (textMatch site)) eqn:Hi.
    + by rewrite (check_resume_found _ _ _ _ Hr Hi).
    + by rewrite (check_resume_not_found _ _ _ _ Hr Hi).
  - destruct (check_resume_failed site r p Hr) as [msg [pre [-> _]]].
    destruct (failedAttempts p !! name site) as [[n|]|] eqn:Hc.
    + rewrite (checkErrorHandler_counted _ _ _ _ n) by done.
      rewrite js_assign_own by (by rewrite Hc).
      destruct (succ_double n =? 1);
        [|destruct (ATTEMPTS_BEFORE_GIVING_UP <? succ_double n)]; done.
    + by rewrite checkErrorHandler_uncounted by (simpl; by rewrite Hc).
    + by rewrite checkErrorHandler_uncounted by (simpl; by rewrite Hc).
Qed.

Lemma check_resume_status (site : Site) (r : FetchResult) (p : Process) :
  (check_resume site r p).1
    = Some (verdict site r (failedAttempts p !! name site)).
Proof.
  unfold verdict. destruct (readable r) as [html|] eqn:Hr.
  - destruct (includes html (textMatch site)) eqn:Hi.
    + by rewrite (check_resume_found _ _ _ _ Hr Hi).
    + by rewrite (check_resume_not_found _ _ _ _ Hr Hi).
  - destruct (check_resume_failed site r p Hr) as [msg [pre [-> _]]].
    destruct (failedAttempts p !! name site) as [[n|]|] eqn:Hc.
    + rewrite (checkErrorHandler_counted _ _ _ _ n) by done. simpl.
      destruct (succ_double n =? 1);
        [|destruct (ATTEMPTS_BEFORE_GIVING_UP <? succ_double n)]; done.
    + by rewrite checkErrorHandler_uncounted by (simpl; by rewrite Hc).
    + by rewrite checkErrorHandler_uncounted by (simpl; by rewrite Hc).
Qed.

Lemma check_counter (site : Site) (r : FetchResult) (p : Process) :
  failedAttempts (check site r p).2 =
    match readable r with
    | Some _ => failedAttempts p
    | None =>
        js_assign (name site)
          (js_succ (to_number (failedAttempts p !! name site)))
          (failedAttempts p)
    end.
Proof. by rewrite check_unfold, check_resume_counter. Qed.

Lemma check_status (site : Site) (r : FetchResult) (p : Process) :
  (check site r p).1 = Some (verdict site r (failedAttempts p !! name site)).
Proof. by rewrite check_unfold, check_resume_status. Qed.

Lemma check_resume_outbox (site : Site) (r : FetchResult) (p : Process) :
  outbox (check_resume site r p).2 =
    outbox p ++ ((λ a, (alert p a.1 a.2, Pending))
                   <$> alerts_of site r (failedAttempts p !! name site)).
Proof.
  unfold alerts_of. destruct (readable r) as [html|] eqn:Hr.
  - destruct (includes html (textMatch site)) eqn:Hi.
    + rewrite (check_resume_found _ _ _ _ Hr Hi). simpl. by rewrite app_nil_r.
    + by rewrite (check_resume_not_found _ _ _ _ Hr Hi).
  - destruct (check_resume_failed site r p Hr) as [msg [pre [-> _]]].
    destruct (failedAttempts p !! name site) as [[n|]|] eqn:Hc.
    + rewrite (checkErrorHandler_counted _ _ _ _ n) by done. simpl.
      destruct (succ_double n =? 1);
        [|destruct (ATTEMPTS_BEFORE_GIVING_UP <? succ_double n)]; simpl;
        by rewrite ?app_nil_r.
    + rewrite checkErrorHandler_uncounted by (simpl; by rewrite Hc).
      simpl. by rewrite app_nil_r.
    + rewrite checkErrorHandler_uncounted by (simpl; by rewrite Hc).
      simpl. by rewrite app_nil_r.
Qed.

Lemma check_outbox (site : Site) (r : FetchResult) (p : Process) :
  outbox (check site r p).2 =
    outbox p ++ ((λ a, (alert p a.1 a.2, Pending))
                   <$> alerts_of site r (failedAttempts p !! name site)).
Proof. by rewrite check_unfold, check_resume_outbox. Qed.

(** The outcome of a failing check on a counter that holds a number. *)
Lemma check_failed_counted (site : Site) (r : FetchResult) (p : Process)
    (n : Z) :
  readable r = None →
  failedAttempts p !! name site = Some (Num n) →
  n ≤ MAX_SAFE_INTEGER →
  failedAttempts (check site r p).2 !! name site = Some (Num (n + 1)) ∧
  (check site r p).1 =
    Some (if n + 1 =? 1 then COOLDOWN
          else if ATTEMPTS_BEFORE_GIVING_UP <? n + 1 then GAVE_UP
          else COOLDOWN) ∧
  alerts_since p (check site r p).2 =
    if n + 1 =? 1 then
      [(subject_failed_once site, body_failed_once site (failure_reason r))]
    else if ATTEMPTS_BEFORE_GIVING_UP <? n + 1 then
      [(subject_giving_up site, body_giving_up site (failure_reason r))]
    else [].
Proof.
  intros Hr Hc Hn. rewrite check_unfold.
  destruct (check_resume_failed site r
              (set_logged (λ ls, ls ++ [(LDebug, MsgMakingRequest (url site))]) p) Hr)
    as [msg [pre [-> _]]].
  rewrite (checkErrorHandler_counted _ _ _ _ n) by done.
  rewrite (succ_double_exact n Hn). unfold alerts_since.
  destruct (n + 1 =? 1); [|destruct (ATTEMPTS_BEFORE_GIVING_UP <? n + 1)];
    simpl; rewrite lookup_insert_eq; (split; [done|]); (split; [done|]).
  - by rewrite drop_own_length.
  - by rewrite drop_own_length.
  - by rewrite drop_all.
Qed.

Lemma verdict_GAVE_UP (site : Site) (r : FetchResult) (n : Z) :
  verdict site r (Some (Num n)) = GAVE_UP
  ↔ readable r = None ∧ ATTEMPTS_BEFORE_GIVING_UP ≤ n.
Proof.
  rewrite <- succ_double_above.
  unfold verdict, ATTEMPTS_BEFORE_GIVING_UP. simpl.
  destruct (readable r) as [html|].
  - split; [|intros [? _]; discriminate].
    by destruct (includes html (textMatch site)).
  - destruct (Z.eqb_spec (succ_double n) 1).
    { split; [discriminate | intros [_ ?]; lia]. }
    destruct (Z.ltb_spec 3 (succ_double n)).
    + split; [intros _; split; [done | lia] | done].
    + split; [discriminate | intros [_ ?]; lia].
Qed.

(** Checks in a row: the counter ends at its start plus the number of
    failed checks, and each status is the verdict on the failures so far. *)
Lemma check_seq_counted (site : Site) (rs : list FetchResult) (p : Process)
    (m : Z) :
  failedAttempts p !! name site = Some (Num (saturated m)) →
  ∃ sts p',
    check_seq site rs p = (Some sts, p') ∧
    failedAttempts p' !! name site = Some (Num (saturated (m + failures rs))) ∧
    ∀ k r, rs !! k = Some r →
      sts !! k =
        Some (verdict site r (Some (Num (saturated (m + failures (take k rs)))))).
Proof.
  revert p m. induction rs as [|r rs IH]; intros p m Hc.
  - exists [], p. simpl. unfold failures. simpl. rewrite Z.add_0_r.
    repeat split; try done.
  - simpl. unfold mbind, M_bind.
    destruct (check_frame site r p) as [st [q [Hq _]]].
    pose proof (check_status site r p) as Hst. rewrite Hq in Hst.
    simpl in Hst. injection Hst as ->.
    pose proof (check_counter site r p) as Hfa. rewrite Hq in Hfa.
    simpl in Hfa.
    assert (failedAttempts q !! name site
            = Some (Num (saturated
                           (m + if decide (readable r = None) then 1 else 0))))
      as Hcq.
    { rewrite Hfa. destruct (readable r) as [html|].
      - rewrite decide_False by done. by rewrite Z.add_0_r.
      - rewrite decide_True by done.
        rewrite js_assign_own by (by rewrite Hc).
        rewrite lookup_insert_eq, Hc. simpl.
        by rewrite succ_double_saturated. }
    destruct (IH q _ Hcq) as [sts [p' (Hs & Hc' & Hk)]].
    rewrite Hq, Hs. unfold mret, M_ret. eexists _, _. split; [done|].
    rewrite failures_cons. split.
    + rewrite Hc'. do 3 f_equal. lia.
    + intros [|k] r' Hr'; simpl in Hr'.
      * injection Hr' as <-. simpl. unfold failures. simpl.
        by rewrite Z.add_0_r, Hc.
      * simpl. rewrite (Hk k r' Hr'), failures_cons. do 5 f_equal. lia.
Qed.

(** ** The scheduler *)

Lemma dispatch_COOLDOWN (site : Site) (p : Process) :
  dispatch site (STATUS_value COOLDOWN) p =
    (Some tt,
     set_timers (λ ts, ts ++ [(msgCooldown site, site)])
       (set_logged (λ ls, ls ++ [(LDebug, MsgGotCooldown (msgCooldown site))]) p)).
Proof. reflexivity. Qed.

Lemma dispatch_WAIT (site : Site) (p : Process) :
  dispatch site (STATUS_value WAIT) p =
    (Some tt,
     set_timers (λ ts, ts ++ [(interval site, site)])
       (set_logged (λ ls, ls ++ [(LDebug, MsgGotWait (interval site))]) p)).
Proof. reflexivity. Qed.

Lemma dispatch_GAVE_UP (site : Site) (p : Process) :
  dispatch site (STATUS_value GAVE_UP) p =
    (Some tt, set_logged (λ ls, ls ++ [(LDebug, MsgGotGaveUp)]) p).
Proof. reflexivity. Qed.

Lemma dispatch_unknown (site : Site) (code : Z) (p : Process) :
  (∀ s, code ≠ STATUS_value s) →
  dispatch site code p =
    (None,
     set_exited 1
       (set_logged (λ ls, ls ++ [(LError, MsgDefaultCase (name site) code)]) p)).
Proof.
  intros H. unfold dispatch.
  destruct (Z.eqb_spec code (STATUS_value COOLDOWN)) as [E|_]; [by destruct (H COOLDOWN)|].
  destruct (Z.eqb_spec code (STATUS_value WAIT)) as [E|_]; [by destruct (H WAIT)|].
  destruct (Z.eqb_spec code (STATUS_value READY)) as [E|_]; [by destruct (H READY)|].
  destruct (Z.eqb_spec code (STATUS_value GAVE_UP)) as [E|_]; [by destruct (H GAVE_UP)|].
  reflexivity.
Qed.

Lemma handler_resume_unfold (site : Site) (r : FetchResult) (p : Process) :
  handler_resume site r p =
    match check_resume site r p with
    | (Some st, p') => dispatch site (STATUS_value st) p'
    | (None, p') => (None, p')
    end.
Proof. reflexivity. Qed.

Lemma handler_unfold (site : Site) (r : FetchResult) (p : Process) :
  handler site r p =
    match check site r
            (set_logged (λ ls, ls ++ [(LInfo, MsgCheckInitiated (name site))]) p)
    with
    | (Some st, p') => dispatch site (STATUS_value st) p'
    | (None, p') => (None, p')
    end.
Proof. reflexivity. Qed.

Lemma initiated_app (nm : string) (p p' : Process) (ls : list (LogLevel * LogMsg)) :
  logged p' = logged p ++ ls →
  initiated nm p' =
    (initiated nm p + length (filter (λ l, l = (LInfo, MsgCheckInitiated nm)) ls))%nat.
Proof. intros E. unfold initiated. by rewrite E, filter_app, length_app. Qed.

Lemma initiated_quiet (nm : string) (p p' : Process) (ls : list (LogLevel * LogMsg)) :
  logged p' = logged p ++ ls → Forall quiet ls →
  initiated nm p' = initiated nm p.
Proof.
  intros E Hq. rewrite (initiated_app nm p p' ls E).
  replace (filter (λ l, l = (LInfo, MsgCheckInitiated nm)) ls) with
    (@nil (LogLevel * LogMsg)); [simpl; lia|].
  symmetry. clear E. induction Hq as [|l ls Hl _ IH]; [done|].
  rewrite filter_cons.
  destruct (decide (l = (LInfo, MsgCheckInitiated nm))) as [->|_];
    [by destruct (Hl nm) | exact IH].
Qed.

(** The handler that resumes with the outcome of its fetch: the status of
    the check decides the timer, nothing else is scheduled. *)
Lemma handler_resume_effect (site : Site) (r : FetchResult) (p : Process) :
  ∃ st p',
    handler_resume site r p = (Some tt, p') ∧
    (check_resume site r p).1 = Some st ∧ st ≠ READY ∧
    fetching p' = fetching p ∧
    timers p' = timers p ++ armed site st ∧
    listeners p' = listeners p ∧
    exited p' = exited p ∧
    (∃ ls, logged p' = logged p ++ ls ∧ Forall quiet ls) ∧
    counters_le p p'.
Proof.
  rewrite handler_resume_unfold.
  destruct (check_resume_frame site r p)
    as [st [q [-> (Hst & He & Hl & Hf & Ht & Hx & [ls [Hls Hq]] & Hms & Hle)]]].
  exists st. destruct st; [| |done|].
  - rewrite dispatch_COOLDOWN. eexists. split; [done|]. simpl.
    rewrite Ht, Hls, <- app_assoc. repeat split; try done.
    eexists. split; [done|]. apply Forall_app. split; [done | quiet_lines].
  - rewrite dispatch_WAIT. eexists. split; [done|]. simpl.
    rewrite Ht, Hls, <- app_assoc. repeat split; try done.
    eexists. split; [done|]. apply Forall_app. split; [done | quiet_lines].
  - rewrite dispatch_GAVE_UP. eexists. split; [done|]. simpl.
    rewrite Ht, Hls, <- app_assoc, app_nil_r. repeat split; try done.
    eexists. split; [done|]. apply Forall_app. split; [done | quiet_lines].
Qed.

Lemma handler_begin_unfold (site : Site) (p : Process) :
  handler_begin site p =
    (Some tt,
     set_fetching (λ fs, fs ++ [site])
       (set_logged (λ ls, ls ++ [(LDebug, MsgMakingRequest (url site))])
          (set_logged (λ ls, ls ++ [(LInfo, MsgCheckInitiated (name site))]) p))).
Proof. reflexivity. Qed.

Lemma handler_begin_initiated (site : Site) (nm : string) (p : Process) :
  initiated nm (handler_begin site p).2 =
    (initiated nm p + length (filter (λ s, name s = nm) [site]))%nat.
Proof.
  rewrite handler_begin_unfold. simpl.
  rewrite (initiated_app nm p _
    [(LInfo, MsgCheckInitiated (name site));
     (LDebug, MsgMakingRequest (url site))]) by (simpl; by rewrite <- app_assoc).
  f_equal. rewrite !filter_cons, !filter_nil.
  destruct (decide (name site = nm)) as [->|Hne].
  - rewrite decide_True by done. by rewrite decide_False by discriminate.
  - rewrite decide_False by congruence. by rewrite decide_False by discriminate.
Qed.

Lemma filter_none {A} (P : A → Prop) `{∀ x, Decision (P x)} (l : list A) :
  (∀ x, x ∈ l → ¬ P x) → filter P l = [].
Proof.
  induction l as [|a l IH]; intros Hl; [done|].
  rewrite filter_cons. rewrite decide_False by (apply Hl; by left).
  apply IH. intros x Hx. apply Hl. by right.
Qed.

Lemma matched_none (ev : string) (ls : list (string * Site)) :
  (ev ∉ ls.*1) → matched ev ls = [].
Proof.
  unfold matched. induction ls as [|[n s] ls IH]; intros Hn; [done|].
  rewrite filter_cons. simpl in *.
  destruct (decide (n = ev)) as [->|Hne].
  - destruct Hn. by left.
  - apply IH. intros Hin. apply Hn. by right.
Qed.

Lemma matched_at_most_one (ev : string) (ls : list (string * Site)) :
  NoDup ls.*1 → matched ev ls = [] ∨ ∃ s, matched ev ls = [s].
Proof.
  induction ls as [|[n s] ls IH]; intros Hnd; [by left|].
  simpl in Hnd. apply NoDup_cons in Hnd as [Hn Hnd].
  unfold matched. rewrite filter_cons. simpl.
  destruct (decide (n = ev)) as [->|Hne].
  - right. exists s. simpl. f_equal. by apply matched_none.
  - by apply IH.
Qed.

Lemma matched_names (ev : string) (ls : list (string * Site)) (s : Site) :
  (∀ l, l ∈ ls → l.1 = name l.2) → s ∈ matched ev ls → name s = ev.
Proof.
  intros Hl Hs. unfold matched in Hs.
  apply list_elem_of_fmap in Hs as [[n s'] [-> Hin]].
  apply list_elem_of_filter in Hin as [Hev Hin].
  pose proof (Hl _ Hin) as E. simpl in *. congruence.
Qed.

Lemma matched_app (ev : string) (l1 l2 : list (string * Site)) :
  matched ev (l1 ++ l2) = matched ev l1 ++ matched ev l2.
Proof. unfold matched. by rewrite filter_app, fmap_app. Qed.

(** An [emit] starts one check per listener of the event and touches
    nothing else but the log. *)
Lemma call_listeners_effect (ev : string) (ls : list (string * Site))
    (p : Process) :
  ∃ p', call_listeners ev ls p = (Some tt, p') ∧
        fetching p' = fetching p ++ matched ev ls ∧
        timers p' = timers p ∧
        listeners p' = listeners p ∧
        exited p' = exited p ∧
        failedAttempts p' = failedAttempts p ∧
        outbox p' = outbox p ∧
        ∀ nm, initiated nm p' =
                (initiated nm p
                 + length (filter (λ s, name s = nm) (matched ev ls)))%nat.
Proof.
  revert p. induction ls as [|[n site] ls IH]; intros p.
  - exists p. unfold matched. simpl. rewrite app_nil_r.
    repeat split; try done; intros nm; lia.
  - simpl. unfold mbind, M_bind. unfold matched. rewrite filter_cons. simpl.
    destruct (decide (n = ev)) as [->|Hne].
    + rewrite handler_begin_unfold.
      destruct (IH (handler_begin site p).2)
        as [p' (Hc & Hf & Ht & Hl & Hx & Hfa & Ho & Hi)].
      rewrite handler_begin_unfold in Hc. simpl in Hc. rewrite Hc.
      exists p'. split; [done|]. rewrite Hf, Ht, Hl, Hx, Hfa, Ho. simpl.
      rewrite <- app_assoc. repeat split; try done.
      intros nm. rewrite Hi, handler_begin_initiated.
      fold (matched ev ls). rewrite !filter_cons, filter_nil.
      destruct (decide (name site = nm)); unfold matched, fmap; simpl; lia.
    + unfold mret, M_ret.
      destruct (IH p) as [p' (Hc & Hf & Ht & Hl & Hx & Hfa & Ho & Hi)].
      rewrite Hc. by exists p'.
Qed.

Lemma call_listeners_env (ev : string) (ls : list (string * Site)) (p : Process) :
  env (call_listeners ev ls p).2 = env p.
Proof.
  revert p. induction ls as [|[n site] ls IH]; intros p; [done|].
  simpl. unfold mbind, M_bind.
  destruct (decide (n = ev)).
  - rewrite handler_begin_unfold. by rewrite IH.
  - unfold mret, M_ret. apply IH.
Qed.

(** The state a call of [checkCallback] leaves, whether the [emit] throws
    or not. *)
Lemma checkCallback_state (site : Site) (p : Process) :
  fetching (checkCallback site p).2
    = fetching p ++ matched (name site) (listeners p) ∧
  timers (checkCallback site p).2 = timers p ∧
  listeners (checkCallback site p).2 = listeners p ∧
  exited (checkCallback site p).2
    = (if decide (unheard (name site) (listeners p)) then Some 1
       else exited p) ∧
  failedAttempts (checkCallback site p).2 = failedAttempts p ∧
  outbox (checkCallback site p).2 = outbox p ∧
  env (checkCallback site p).2 = env p ∧
  ∀ nm, initiated nm (checkCallback site p).2 =
          (initiated nm p
           + length (filter (λ s, name s = nm)
                       (matched (name site) (listeners p))))%nat.
Proof.
  unfold checkCallback, emit, logger, modify, gets, mbind, M_bind. simpl.
  assert (∀ nm q, logged q
                    = logged p ++ [(LDebug, MsgTimeoutReached (name site))] →
                  initiated nm q = initiated nm p) as Hquiet.
  { intros nm q Hq.
    apply (initiated_quiet nm p q [(LDebug, MsgTimeoutReached (name site))]);
      [done | quiet_lines]. }
  destruct (decide (unheard (name site) (listeners p))) as [[_ Hu]|Hu].
  - unfold uncaught_exception. simpl. rewrite (matched_none _ _ Hu).
    rewrite app_nil_r. repeat split; try done.
    intros nm. simpl. rewrite Nat.add_0_r. by apply Hquiet.
  - pose proof (call_listeners_env (name site) (listeners p)
      (set_logged (λ ls, ls ++ [(LDebug, MsgTimeoutReached (name site))]) p))
      as He.
    destruct (call_listeners_effect (name site) (listeners p)
      (set_logged (λ ls, ls ++ [(LDebug, MsgTimeoutReached (name site))]) p))
      as [p' (Hc & Hf & Ht & Hl & Hx & Hfa & Ho & Hi)].
    simpl in Hc. rewrite Hc in He |- *. simpl. repeat split; try done.
    intros nm. rewrite Hi. f_equal. by apply Hquiet.
Qed.

Lemma checkCallback_effect (site : Site) (p : Process) :
  ¬ unheard (name site) (listeners p) →
  ∃ p', checkCallback site p = (Some tt, p') ∧
        fetching p' = fetching p ++ matched (name site) (listeners p) ∧
        timers p' = timers p ∧
        listeners p' = listeners p ∧
        exited p' = exited p ∧
        failedAttempts p' = failedAttempts p ∧
        outbox p' = outbox p ∧
        ∀ nm, initiated nm p' =
                (initiated nm p
                 + length (filter (λ s, name s = nm)
                             (matched (name site) (listeners p))))%nat.
Proof.
  intros Hu.
  destruct (checkCallback_state site p) as (Hf & Ht & Hl & Hx & Hfa & Ho & _ & Hi).
  rewrite decide_False in Hx by done.
  exists (checkCallback site p).2. split; [|done].
  unfold checkCallback, emit, logger, modify, gets, mbind, M_bind. simpl.
  rewrite decide_False by done.
  by destruct (call_listeners_effect (name site) (listeners p)
    (set_logged (λ ls, ls ++ [(LDebug, MsgTimeoutReached (name site))]) p))
    as [p' (-> & _)].
Qed.

(** ** The event loop *)

Lemma step_FetchSettles (p : Process) (i : nat) (r : FetchResult) (site : Site) :
  exited p = None →
  fetching p !! i = Some site →
  step (FetchSettles i r) p =
    Some (handler_resume site r (set_fetching (delete i) p)).2.
Proof. intros Hx Hi. unfold step. rewrite Hx. simpl. by rewrite Hi. Qed.

Lemma step_TimerFires (p : Process) (j : nat) (t : Z * Site) :
  exited p = None →
  timers p !! j = Some t →
  step (TimerFires j) p = Some (checkCallback t.2 (set_timers (delete j) p)).2.
Proof. intros Hx Hj. unfold step. rewrite Hx. simpl. by rewrite Hj. Qed.

Lemma step_MailSettles_rejected (p : Process) (k : nat) (m : Mail)
    (e : JsError) :
  exited p = None →
  outbox p !! k = Some (m, Pending) →
  step (MailSettles k (SendThrows e)) p =
    Some (set_exited 1 (set_outbox (λ ms, <[k := (m, Rejected e)]> ms) p)).
Proof.
  intros Hx Hk. unfold step. rewrite Hx.
  unfold sendAlert_settle, unhandled_rejection, gets, modify, mbind, M_bind,
    mret, M_ret.
  by rewrite Hk.
Qed.

Lemma step_MailSettles_fulfilled (p : Process) (k : nat) (m : Mail) :
  exited p = None →
  outbox p !! k = Some (m, Pending) →
  step (MailSettles k SendOk) p =
    Some (set_outbox (λ ms, <[k := (m, Fulfilled)]> ms)
            (set_logged (λ ls, ls ++ [(LDebug, MsgSent (mail_subject m))]) p)).
Proof.
  intros Hx Hk. unfold step. rewrite Hx.
  unfold sendAlert_settle, logger, gets, modify, mbind, M_bind, mret, M_ret.
  by rewrite Hk.
Qed.

(** The three kinds of step and what each does to the schedule; the
    process is left exited by the step of a send that rejects, and by
    that of a timer whose callback emits [error] with nothing
    listening. *)
Lemma step_cases (ev : Event) (p p' : Process) :
  step ev p = Some p' →
  exited p = None ∧
  (exited p' = (if rejects ev then Some 1 else None)
   ∨ exited p' = Some 1
     ∧ ∃ j t, ev = TimerFires j ∧ timers p !! j = Some t
              ∧ unheard (name t.2) (listeners p)) ∧
  listeners p' = listeners p ∧
  counters_le p p' ∧
  ((∃ i r site st,
      ev = FetchSettles i r ∧ fetching p !! i = Some site ∧
      (check_resume site r (set_fetching (delete i) p)).1 = Some st ∧
      st ≠ READY ∧
      fetching p' = delete i (fetching p) ∧
      timers p' = timers p ++ armed site st ∧
      ∀ nm, initiated nm p' = initiated nm p)
   ∨ (∃ j t,
      ev = TimerFires j ∧ timers p !! j = Some t ∧
      fetching p' = fetching p ++ matched (name t.2) (listeners p) ∧
      timers p' = delete j (timers p) ∧
      ∀ nm, initiated nm p' =
              (initiated nm p
               + length (filter (λ s, name s = nm)
                           (matched (name t.2) (listeners p))))%nat)
   ∨ (∃ k r,
      ev = MailSettles k r ∧
      fetching p' = fetching p ∧ timers p' = timers p ∧
      failedAttempts p' = failedAttempts p ∧
      ∀ nm, initiated nm p' = initiated nm p)).
Proof.
  intros Hs. unfold step in Hs.
  destruct (exited p) as [c|] eqn:Hx; [discriminate|].
  split; [done|]. destruct ev as [i r|j|k r].
  - destruct (fetching p !! i) as [site|] eqn:Hi; [|discriminate].
    simpl in Hs. injection Hs as <-.
    destruct (handler_resume_effect site r (set_fetching (delete i) p))
      as [st [q (-> & Hst & Hne & Hf & Ht & Hl & Hxq & [ls [Hls Hq]] & Hle)]].
    simpl. rewrite Hxq, Hl. simpl.
    split; [by left|]. split; [done|]. split; [done|].
    left. exists i, r, site, st. repeat split; try done.
    intros nm. by apply (initiated_quiet nm (set_fetching (delete i) p) q ls).
  - destruct (timers p !! j) as [t|] eqn:Hj; [|discriminate].
    simpl in Hs. injection Hs as <-.
    destruct (checkCallback_state t.2 (set_timers (delete j) p))
      as (Hf & Ht & Hl & Hxq & Hfa & Ho & _ & Hi).
    simpl in *. rewrite Hl. split; [|split; [done|split]].
    + rewrite Hxq, Hx. destruct (decide _) as [Hu|Hu]; [right | by left].
      split; [done|]. by exists j, t.
    + by apply counters_le_same.
    + right; left. exists j, t. repeat split; try done.
  - unfold sendAlert_settle, unhandled_rejection, logger, gets, modify, mbind,
      M_bind, mret, M_ret in Hs.
    destruct (outbox p !! k) as [[m [| |e]]|]; try discriminate.
    destruct r as [|e]; injection Hs as <-; simpl;
      (split; [by left|]); (split; [done|]);
      (split; [by apply counters_le_same|]); right; right.
    + exists k, SendOk. repeat split; try done.
      intros nm.
      apply (initiated_quiet nm p _ [(LDebug, MsgSent (mail_subject m))]);
        [done | quiet_lines].
    + exists k, (SendThrows e). repeat split; try done.
Qed.

Lemma pending_names_unfold (p : Process) :
  pending_names p = (name <$> fetching p) ++ ((λ t, name t.2) <$> timers p).
Proof. reflexivity. Qed.

(** A step either keeps the pending names or drops one of them. *)
Lemma step_pending (ev : Event) (p p' : Process) :
  consistent p → step ev p = Some p' →
  pending_names p' ≡ₚ pending_names p
  ∨ ∃ nm, pending_names p ≡ₚ nm :: pending_names p'.
Proof.
  intros (Hnamed & Hnd & _) Hs.
  destruct (step_cases ev p p' Hs) as (_ & _ & _ & _ & Hcase).
  rewrite !pending_names_unfold.
  destruct Hcase as [(i & r & site & st & _ & Hi & _ & Hst & -> & -> & _)
                    |[(j & t & _ & Hj & -> & -> & _)
                    |(k & r & _ & -> & -> & _)]].
  - pose proof (delete_Permutation _ _ _ Hi) as E.
    set (A := delete i (fetching p)) in *.
    destruct st; simpl; [left|left|done|right; exists (name site)];
      rewrite E, fmap_app; simpl.
    + rewrite app_assoc, <- Permutation_cons_append. reflexivity.
    + rewrite app_assoc, <- Permutation_cons_append. reflexivity.
    + rewrite app_nil_r. reflexivity.
  - pose proof (delete_Permutation _ _ _ Hj) as E.
    set (T := delete j (timers p)) in *.
    destruct (matched_at_most_one (name t.2) (listeners p) Hnd) as [->|[s Hm]].
    + right. exists (name t.2). rewrite E, fmap_app. simpl. rewrite app_nil_r.
      rewrite <- Permutation_middle. reflexivity.
    + left. rewrite E, fmap_app, Hm. simpl.
      assert (name s = name t.2) as ->
        by (apply (matched_names _ (listeners p)); [done|rewrite Hm; by left]).
      rewrite <- app_assoc. simpl. rewrite <- !Permutation_middle. reflexivity.
  - by left.
Qed.

Lemma step_consistent (ev : Event) (p p' : Process) :
  consistent p → step ev p = Some p' → consistent p'.
Proof.
  intros Hc Hs. pose proof Hc as (Hnamed & Hnd & Hp).
  destruct (step_cases ev p p' Hs) as (_ & _ & Hl & _).
  unfold consistent. rewrite Hl. split; [done|]. split; [done|].
  destruct (step_pending ev p p' Hc Hs) as [E|[nm E]].
  - by rewrite E.
  - rewrite E in Hp. by apply NoDup_cons in Hp as [_ Hp].
Qed.

Lemma run_consistent (evs : list Event) (p p' : Process) :
  consistent p → run evs p = Some p' → consistent p'.
Proof.
  revert p. induction evs as [|ev evs IH]; intros p Hc Hr; simpl in Hr.
  - by injection Hr as <-.
  - destruct (step ev p) as [q|] eqn:Hs; [|discriminate]. simpl in Hr.
    apply (IH q); [by apply (step_consistent ev p)|done].
Qed.

(** A site with nothing pending stays so, and no check of it starts. *)
Lemma step_idle (ev : Event) (p p' : Process) (nm : string) :
  consistent p → (nm ∉ pending_names p) → step ev p = Some p' →
  (nm ∉ pending_names p') ∧ initiated nm p' = initiated nm p.
Proof.
  intros Hc Hn Hs. split.
  - destruct (step_pending ev p p' Hc Hs) as [E|[nm' E]].
    + by rewrite E.
    + rewrite E in Hn. intros Hin. apply Hn. by right.
  - destruct Hc as (Hnamed & _ & _).
    destruct (step_cases ev p p' Hs) as (_ & _ & _ & _ & Hcase).
    destruct Hcase as [(i & r & site & st & _ & _ & _ & _ & _ & _ & Hi)
                      |[(j & t & _ & Hj & _ & _ & Hi)
                      |(k & r & _ & _ & _ & _ & Hi)]]; [done| |done].
    rewrite Hi.
    replace (filter (λ s, name s = nm) (matched (name t.2) (listeners p)))
      with (@nil Site); [simpl; lia|].
    symmetry. apply filter_none. intros s Hs' <-.
    apply Hn. rewrite pending_names_unfold. apply elem_of_app. right.
    rewrite (matched_names _ _ _ Hnamed Hs').
    apply list_elem_of_lookup_2 in Hj.
    by apply (list_elem_of_fmap_2 (λ t, name t.2)) in Hj.
Qed.

Lemma run_idle (evs : list Event) (p p' : Process) (nm : string) :
  consistent p → (nm ∉ pending_names p) → run evs p = Some p' →
  (nm ∉ pending_names p') ∧ initiated nm p' = initiated nm p.
Proof.
  revert p. induction evs as [|ev evs IH]; intros p Hc Hn Hr; simpl in Hr.
  - by injection Hr as <-.
  - destruct (step ev p) as [q|] eqn:Hs; [|discriminate]. simpl in Hr.
    destruct (step_idle ev p q nm Hc Hn Hs) as [Hq Hi].
    destruct (IH q (step_consistent ev p q Hc Hs) Hq Hr) as [Hq' Hi'].
    split; [done | congruence].
Qed.

Lemma run_counters_le (evs : list Event) (p p' : Process) :
  run evs p = Some p' → counters_le p p'.
Proof.
  revert p. induction evs as [|ev evs IH]; intros p Hr; simpl in Hr.
  - injection Hr as <-. apply counters_le_refl.
  - destruct (step ev p) as [q|] eqn:Hs; [|discriminate]. simpl in Hr.
    destruct (step_cases ev p q Hs) as (_ & _ & _ & Hle & _).
    by apply (counters_le_trans p q p'); [|apply IH].
Qed.

Lemma run_stuck (evs : list Event) (p p' : Process) (c : Z) :
  exited p = Some c → run evs p = Some p' → evs = [].
Proof.
  intros Hx Hr. destruct evs as [|ev evs]; [done|].
  simpl in Hr. unfold step in Hr. by rewrite Hx in Hr.
Qed.



(** The step in which a check gives up: no timer, nothing pending. *)
Lemma step_gave_up (p p' : Process) (i : nat) (r : FetchResult) (site : Site) :
  consistent p →
  fetching p !! i = Some site →
  verdict site r (failedAttempts p !! name site) = GAVE_UP →
  step (FetchSettles i r) p = Some p' →
  timers p' = timers p ∧ (name site ∉ pending_names p').
Proof.
  intros (_ & _ & Hp) Hi Hv Hs.
  destruct (step_cases _ _ _ Hs) as (_ & _ & _ & _ & Hcase).
  destruct Hcase as [(i' & r' & site' & st & Hev & Hi' & Hst & _ & Hf & Ht & _)
                    |[(j & t & Hev & _)|(k & r' & Hev & _)]];
    [|discriminate..].
  injection Hev as <- <-. rewrite Hi in Hi'. injection Hi' as <-.
  rewrite check_resume_status in Hst. simpl in Hst. rewrite Hv in Hst.
  injection Hst as <-. simpl in Ht. rewrite app_nil_r in Ht. split; [done|].
  rewrite pending_names_unfold in *.
  rewrite Hf, Ht. rewrite (delete_Permutation _ _ _ Hi) in Hp.
  simpl in Hp. by apply NoDup_cons in Hp as [Hp _].
Qed.

(** The counters after a step. *)
Lemma step_counter (ev : Event) (p p' : Process) :
  step ev p = Some p' →
  failedAttempts p' = failedAttempts p
  ∨ ∃ i r site,
      ev = FetchSettles i r ∧ fetching p !! i = Some site ∧
      readable r = None ∧
      failedAttempts p' =
        js_assign (name site)
          (js_succ (to_number (failedAttempts p !! name site)))
          (failedAttempts p).
Proof.
  intros Hs. unfold step in Hs.
  destruct (exited p) as [c|] eqn:Hx; [discriminate|].
  destruct ev as [i r|j|k r].
  - destruct (fetching p !! i) as [site|] eqn:Hi; [|discriminate].
    simpl in Hs. injection Hs as <-.
    pose proof (check_resume_counter site r (set_fetching (delete i) p)) as Hc.
    rewrite handler_resume_unfold.
    destruct (check_resume_frame site r (set_fetching (delete i) p))
      as [st [q [Hq [Hst _]]]].
    rewrite Hq in Hc |- *. simpl in Hc.
    assert (failedAttempts (dispatch site (STATUS_value st) q).2
            = failedAttempts q) as ->.
    { destruct st; [| |done|].
      - by rewrite dispatch_COOLDOWN.
      - by rewrite dispatch_WAIT.
      - by rewrite dispatch_GAVE_UP. }
    destruct (readable r) eqn:Hr; [by left|].
    right. by exists i, r, site.
  - destruct (timers p !! j) as [t|] eqn:Hj; [|discriminate].
    simpl in Hs. injection Hs as <-.
    destruct (checkCallback_state t.2 (set_timers (delete j) p))
      as (_ & _ & _ & _ & Hfa & _).
    left. exact Hfa.
  - assert (step (MailSettles k r) p = Some p') as Hs'
      by (unfold step; by rewrite Hx).
    destruct (step_cases _ _ _ Hs') as (_ & _ & _ & _ & Hcase).
    destruct Hcase as [(? & ? & ? & ? & Hev & _)
                      |[(? & ? & Hev & _)|(? & ? & _ & _ & _ & Hfa & _)]];
      [discriminate.. | by left].
Qed.

Lemma step_bounded (ev : Event) (p p' : Process) :
  consistent p → bounded p → step ev p = Some p' → bounded p'.
Proof.
  intros Hc Hb Hs nm n Hn.
  assert (∀ m, failedAttempts p !! nm = Some (Num m) →
               0 ≤ m ≤ 3 ∨ m = 4 ∧ (nm ∉ pending_names p')) as Hkeep.
  { intros m Hm. destruct (Hb nm m Hm) as [?|[-> Hidle]]; [by left|].
    right. split; [done|]. by destruct (step_idle ev p p' nm Hc Hidle Hs). }
  destruct (step_counter ev p p' Hs) as [E|(i & r & site & -> & Hi & Hr & E)].
  - rewrite E in Hn. by apply Hkeep.
  - rewrite E in Hn. destruct (decide (name site = nm)) as [<-|Hne].
    + rewrite js_assign_lookup in Hn. case_decide; [discriminate|].
      destruct (failedAttempts p !! name site) as [[m|]|] eqn:Hm;
        [|discriminate..].
      simpl in Hn. injection Hn as <-.
      destruct (Hb _ m Hm) as [Hle|[_ Hidle]].
      * pose proof MAX_SAFE_INTEGER_ge.
        rewrite succ_double_exact by lia.
        destruct (decide (m = 3)) as [->|]; [|left; lia].
        right. split; [done|].
        apply (step_gave_up p p' i r site Hc Hi); [|done].
        rewrite Hm. apply verdict_GAVE_UP. split; [done|].
        unfold ATTEMPTS_BEFORE_GIVING_UP. lia.
      * destruct Hidle. rewrite pending_names_unfold. apply elem_of_app. left.
        apply list_elem_of_fmap_2. by apply list_elem_of_lookup_2 in Hi.
    + rewrite js_assign_lookup_ne in Hn by done. by apply Hkeep.
Qed.

Lemma run_bounded (evs : list Event) (p p' : Process) :
  consistent p → bounded p → run evs p = Some p' → bounded p'.
Proof.
  revert p. induction evs as [|ev evs IH]; intros p Hc Hb Hr; simpl in Hr.
  - by injection Hr as <-.
  - destruct (step ev p) as [q|] eqn:Hs; [|discriminate]. simpl in Hr.
    apply (IH q); [by apply (step_consistent ev p) | | done].
    by apply (step_bounded ev p).
Qed.

(** ** Startup *)

Lemma main_with_missing_env (ss : list Site) (v : VerifyResult)
    (p : Process) :
  env p !! "MAIL_USERNAME" = None ∨ env p !! "MAIL_APP_PASSWORD" = None →
  main_with ss v p =
    (None, set_exited 1 (set_logged (λ ls, ls ++ [(LError, MsgMissingEnv)]) p)).
Proof.
  intros H. unfold main_with, verifyExistenceOfImportantEnvVars.
  unfold mbind, M_bind, gets. simpl. by rewrite decide_True.
Qed.

Lemma main_with_unverified (ss : list Site) (e : JsError) (p : Process) :
  ¬ (env p !! "MAIL_USERNAME" = None ∨ env p !! "MAIL_APP_PASSWORD" = None) →
  main_with ss (VerifyThrows e) p =
    (None,
     set_exited 1
       (set_logged (λ ls, ls ++ [(LError, MsgVerifyError e)])
          (set_logged (λ ls, ls ++ [(LError, MsgAuthorizationFailed)])
             (set_logged (λ ls, ls ++ [(LInfo, MsgVerifying)])
                (set_logged (λ ls, ls ++ [(LInfo, MsgTransportInitialized)])
                   (set_logged (λ ls, ls ++ [(LInfo, MsgInitializingTransport)])
                      p)))))).
Proof.
  intros H. unfold main_with, verifyExistenceOfImportantEnvVars.
  unfold mbind, M_bind, gets. simpl. by rewrite decide_False.
Qed.

Lemma main_with_verified (ss : list Site) (p : Process) :
  ¬ (env p !! "MAIL_USERNAME" = None ∨ env p !! "MAIL_APP_PASSWORD" = None) →
  main_with ss VerifyOk p =
    register_all ss
      (set_logged (λ ls, ls ++ [(LDebug, MsgIterating)])
         (set_logged (λ ls, ls ++ [(LInfo, MsgAuthorized)])
            (set_logged (λ ls, ls ++ [(LInfo, MsgVerifying)])
               (set_logged (λ ls, ls ++ [(LInfo, MsgTransportInitialized)])
                  (set_logged (λ ls, ls ++ [(LInfo, MsgInitializingTransport)])
                     p))))).
Proof.
  intros H. unfold main_with, verifyExistenceOfImportantEnvVars.
  unfold mbind, M_bind, gets. simpl. by rewrite decide_False.
Qed.

Lemma emit_effect (ev : string) (p : Process) :
  ¬ unheard ev (listeners p) →
  ∃ p', emit ev p = (Some tt, p') ∧
        fetching p' = fetching p ++ matched ev (listeners p) ∧
        timers p' = timers p ∧
        listeners p' = listeners p ∧
        exited p' = exited p ∧
        failedAttempts p' = failedAttempts p ∧
        outbox p' = outbox p ∧
        env p' = env p.
Proof.
  intros Hu. unfold emit, gets, mbind, M_bind. rewrite decide_False by done.
  pose proof (call_listeners_env ev (listeners p) p) as He.
  destruct (call_listeners_effect ev (listeners p) p)
    as [p' (Hc & Hf & Ht & Hl & Hx & Hfa & Ho & _)].
  rewrite Hc in He |- *. by exists p'.
Qed.

(** One turn of the loop of [main]: the listener is added, the counter is
    assigned, and checks are started by the two [emit]s, the one inside
    [eventEmitter.on] and the one that ends the turn. *)
Lemma register_effect (site : Site) (p : Process) :
  ∃ p', register site p = (Some tt, p') ∧
        listeners p' = listeners p ++ [(name site, site)] ∧
        fetching p' =
          fetching p ++ matched "newListener" (listeners p)
                     ++ matched (name site) (listeners p) ++ [site] ∧
        timers p' = timers p ∧
        exited p' = exited p ∧
        env p' = env p ∧
        outbox p' = outbox p ∧
        failedAttempts p' = js_assign (name site) (Num 0) (failedAttempts p).
Proof.
  unfold register, on, logger, modify, mbind, M_bind.
  destruct (emit_effect "newListener"
              (set_logged (λ ls, ls ++ [(LInfo, MsgSettingListener (name site))]) p))
    as [p1 (H1 & Hf1 & Ht1 & Hl1 & Hx1 & Hfa1 & Ho1 & He1)];
    [by intros [? _]|].
  rewrite H1.
  match goal with
  | |- ∃ _, emit ?ev ?q = _ ∧ _ =>
      destruct (emit_effect ev q)
        as [p2 (H2 & Hf2 & Ht2 & Hl2 & Hx2 & Hfa2 & Ho2 & He2)]
  end.
  { intros [_ Hu]. apply Hu. simpl. rewrite fmap_app.
    apply elem_of_app. right. by left. }
  rewrite H2. exists p2. split; [done|].
  rewrite Hf2, Ht2, Hl2, Hx2, Hfa2, Ho2, He2. simpl.
  rewrite Hf1, Ht1, Hl1, Hx1, Hfa1, Ho1, He1. simpl.
  rewrite matched_app, <- !app_assoc.
  repeat split; try done. do 3 f_equal.
  unfold matched. by rewrite filter_cons, decide_True by done.
Qed.

Lemma registrations_names (ss : list Site) :
  (registrations ss).*1 = name <$> ss.
Proof. unfold registrations. by rewrite <- list_fmap_compose. Qed.

Lemma elem_of_matched (ev : string) (ls : list (string * Site)) (s : Site) :
  s ∈ matched ev ls → s ∈ ls.*2.
Proof.
  unfold matched. intros Hs.
  apply list_elem_of_fmap in Hs as [l [-> Hin]].
  apply list_elem_of_filter in Hin as [_ Hin]. by apply list_elem_of_fmap_2.
Qed.

Lemma registrations_sites (ss : list Site) : (registrations ss).*2 = ss.
Proof.
  unfold registrations. rewrite <- list_fmap_compose. apply list_fmap_id.
Qed.

Lemma registrations_app (ss1 ss2 : list Site) :
  registrations (ss1 ++ ss2) = registrations ss1 ++ registrations ss2.
Proof. unfold registrations. apply fmap_app. Qed.

(** The loop of [main], whatever the sites are called: every site ends
    with its listener, the checks started are checks of the sites that
    have one, and the counters stored are those of the names other than
    [__proto__]. *)
Lemma register_all_effect (ss : list Site) (p : Process) :
  ∃ p', register_all ss p = (Some tt, p') ∧
        listeners p' = listeners p ++ registrations ss ∧
        (∀ s, s ∈ fetching p' →
              s ∈ fetching p ∨ s ∈ (listeners p).*2 ∨ s ∈ ss) ∧
        timers p' = timers p ∧
        exited p' = exited p ∧
        env p' = env p ∧
        outbox p' = outbox p ∧
        (failedAttempts p !! "__proto__" = None →
         ∀ nm, failedAttempts p' !! nm =
                 if decide (nm ∈ name <$> ss ∧ nm ≠ "__proto__")
                 then Some (Num 0)
                 else failedAttempts p !! nm).
Proof.
  revert p. induction ss as [|site ss IH]; intros p.
  - exists p. split; [done|].
    split; [unfold registrations; simpl; by rewrite app_nil_r|].
    split; [by left|]. do 4 (split; [done|]).
    intros _ nm. rewrite decide_False; [done|]. intros [H _].
    by apply elem_of_nil in H.
  - destruct (register_effect site p)
      as [q (Hr & Hlq & Hfq & Htq & Hxq & Heq & Hoq & Hfaq)].
    destruct (IH q) as [p' (Hr' & Hl' & Hf' & Ht' & Hx' & He' & Ho' & Hfa')].
    exists p'. simpl. unfold mbind, M_bind. rewrite Hr, Hr'.
    split; [done|].
    rewrite Hl', Ht', Hx', He', Ho', Hlq, Htq, Hxq, Heq, Hoq.
    split; [by rewrite <- app_assoc|]. split; [|do 4 (split; [done|])].
    + intros s Hs. apply Hf' in Hs as [Hs|[Hs|Hs]].
      * rewrite Hfq in Hs.
        apply elem_of_app in Hs as [?|Hs]; [by left|].
        apply elem_of_app in Hs as [Hs|Hs];
          [right; left; by apply elem_of_matched in Hs|].
        apply elem_of_app in Hs as [Hs|Hs];
          [right; left; by apply elem_of_matched in Hs|].
        apply list_elem_of_singleton in Hs as ->. right; right. by left.
      * rewrite Hlq, fmap_app in Hs.
        apply elem_of_app in Hs as [?|Hs]; [right; by left|].
        apply list_elem_of_singleton in Hs as ->. right; right. by left.
      * right; right. by right.
    + intros Hp nm.
      assert (failedAttempts q !! "__proto__" = None) as Hq.
      { rewrite Hfaq. destruct (decide (name site = "__proto__")) as [->|Hne].
        - by rewrite js_assign_inherited.
        - by rewrite js_assign_lookup_ne. }
      rewrite (Hfa' Hq), Hfaq.
      destruct (decide (nm ∈ name <$> ss ∧ nm ≠ "__proto__")) as [[Hin Hn]|Hout].
      * rewrite decide_True; [done|]. split; [by right | done].
      * destruct (decide (nm = name site)) as [->|Hne].
        -- destruct (decide (name site = "__proto__")) as [E|E].
           ++ rewrite E in *. rewrite js_assign_inherited by done.
              rewrite decide_False; [done|]. by intros [_ ?].
           ++ rewrite js_assign_ordinary, lookup_insert_eq by done.
              rewrite decide_True; [done|]. split; [by left | done].
        -- rewrite js_assign_lookup_ne by done. rewrite decide_False; [done|].
           intros [Hin Hn]. apply Hout. split; [|done].
           apply elem_of_cons in Hin as [?|?]; done.
Qed.

(** With names that are unique and none of which is [newListener], each
    turn of the loop starts the check of its own site and no other. *)
Lemma register_all_plain (ss : list Site) (p : Process) :
  NoDup ((listeners p).*1 ++ (name <$> ss)) →
  ("newListener" ∉ (listeners p).*1 ++ (name <$> ss)) →
  fetching (register_all ss p).2 = fetching p ++ ss.
Proof.
  revert p. induction ss as [|site ss IH]; intros p Hnd Hnl.
  - simpl. by rewrite app_nil_r.
  - destruct (register_effect site p)
      as [q (Hr & Hlq & Hfq & _)].
    simpl. unfold mbind, M_bind. rewrite Hr.
    rewrite IH.
    + rewrite Hfq.
      rewrite (matched_none "newListener")
        by (intros H; apply Hnl, elem_of_app; by left).
      rewrite (matched_none (name site)).
      * simpl. by rewrite <- app_assoc.
      * apply NoDup_app in Hnd as (_ & Hd & _). intros H.
        apply (Hd _ H). by left.
    + by rewrite Hlq, fmap_app, <- app_assoc.
    + by rewrite Hlq, fmap_app, <- app_assoc.
Qed.

(** Whatever [main] does, it sends no mail, arms no timer and leaves the
    environment alone; it exits with code 1 or not at all. *)
Lemma start_quiet (ss : list Site) (e : gmap string string) (v : VerifyResult) :
  env (start ss e v) = e ∧ outbox (start ss e v) = [] ∧
  timers (start ss e v) = [] ∧
  exited (start ss e v) =
    if decide (e !! "MAIL_USERNAME" = None ∨ e !! "MAIL_APP_PASSWORD" = None)
    then Some 1
    else match v with VerifyOk => None | VerifyThrows _ => Some 1 end.
Proof.
  unfold start.
  destruct (decide (e !! "MAIL_USERNAME" = None ∨ e !! "MAIL_APP_PASSWORD" = None))
    as [Hm|Hm].
  - by rewrite main_with_missing_env.
  - destruct v as [|err].
    + rewrite main_with_verified by done.
      match goal with
      | |- context [register_all ss ?q] =>
          destruct (register_all_effect ss q)
            as [p' (-> & _ & _ & Ht & Hx & He & Ho & _)]
      end.
      simpl. by rewrite He, Ho, Ht, Hx.
    + by rewrite main_with_unverified.
Qed.

(** The process [main] leaves when it did not exit: the listeners of the
    sites in the order of the list, checks of these sites only, and a
    counter at 0 under every name but [__proto__]. *)
Lemma start_running (ss : list Site) (e : gmap string string)
    (v : VerifyResult) :
  exited (start ss e v) = None →
  listeners (start ss e v) = registrations ss ∧
  (∀ s, s ∈ fetching (start ss e v) → s ∈ ss) ∧
  ∀ nm, failedAttempts (start ss e v) !! nm =
          if decide (nm ∈ name <$> ss ∧ nm ≠ "__proto__") then Some (Num 0)
          else None.
Proof.
  unfold start.
  destruct (decide (e !! "MAIL_USERNAME" = None ∨ e !! "MAIL_APP_PASSWORD" = None))
    as [Hm|Hm].
  - by rewrite main_with_missing_env.
  - destruct v as [|err].
    + intros _. rewrite main_with_verified by done.
      match goal with
      | |- context [register_all ss ?q] =>
          destruct (register_all_effect ss q)
            as [p' (-> & Hl & Hf & _ & _ & _ & _ & Hfa)]
      end.
      simpl in *. split; [done|]. split.
      * intros s Hs. apply Hf in Hs as [Hs|[Hs|Hs]]; [|..|done];
          by apply elem_of_nil in Hs.
      * intros nm. by rewrite Hfa.
    + by rewrite main_with_unverified.
Qed.

(** A process that exited during [main] registered nothing. *)
Lemma start_aborted (ss : list Site) (e : gmap string string)
    (v : VerifyResult) :
  exited (start ss e v) ≠ None →
  listeners (start ss e v) = [] ∧ fetching (start ss e v) = [] ∧
  failedAttempts (start ss e v) = ∅.
Proof.
  destruct (start_quiet ss e v) as (_ & _ & _ & Hx). rewrite Hx. unfold start.
  destruct (decide (e !! "MAIL_USERNAME" = None ∨ e !! "MAIL_APP_PASSWORD" = None))
    as [Hm|Hm].
  - by rewrite main_with_missing_env.
  - destruct v as [|err]; [done|]. by rewrite main_with_unverified.
Qed.

(** After [main] every counter is at 0. *)
Lemma start_counters (ss : list Site) (e : gmap string string)
    (v : VerifyResult) (nm : string) (n : Z) :
  failedAttempts (start ss e v) !! nm = Some (Num n) → n = 0.
Proof.
  destruct (exited (start ss e v)) as [c|] eqn:Hx.
  - destruct (start_aborted ss e v) as (_ & _ & ->); [by rewrite Hx | done].
  - destruct (start_running ss e v Hx) as (_ & _ & ->).
    destruct (decide _); [by intros [= <-] | done].
Qed.

Lemma start_wired (ss : list Site) (e : gmap string string)
    (v : VerifyResult) :
  exited (start ss e v) = None → wired ss (start ss e v).
Proof.
  intros Hx. destruct (start_running ss e v Hx) as (Hl & Hf & _).
  destruct (start_quiet ss e v) as (_ & _ & Ht & _).
  split; [done|]. split; [done|].
  intros t. rewrite Ht. intros H. by apply elem_of_nil in H.
Qed.

Section Started.
Context (ss : list Site) (Hunique : NoDup (name <$> ss)).
Context (Hplain : "newListener" ∉ name <$> ss).
Context (e : gmap string string) (v : VerifyResult).

(** The process [main] leaves is either exited, with nothing scheduled,
    or has one listener and one check in flight per site. *)
Lemma start_cases :
  (exited (start ss e v) = Some 1 ∧ listeners (start ss e v) = [] ∧
   fetching (start ss e v) = [] ∧ timers (start ss e v) = [])
  ∨ (exited (start ss e v) = None ∧
     listeners (start ss e v) = registrations ss ∧
     fetching (start ss e v) = ss ∧ timers (start ss e v) = []).
Proof.
  destruct (start_quiet ss e v) as (_ & _ & Ht & Hx).
  destruct (exited (start ss e v)) as [c|] eqn:Hxs.
  - left. destruct (start_aborted ss e v) as (Hl & Hf & _); [by rewrite Hxs|].
    repeat split; try done.
    destruct (decide _); [done|]. by destruct v.
  - right. destruct (start_running ss e v Hxs) as (Hl & _ & _).
    repeat split; try done. clear Hx. revert Hxs. unfold start.
    destruct (decide (e !! "MAIL_USERNAME" = None
                      ∨ e !! "MAIL_APP_PASSWORD" = None)) as [Hm|Hm].
    + by rewrite main_with_missing_env.
    + destruct v as [|err]; [|by rewrite main_with_unverified].
      intros _. rewrite main_with_verified by done.
      by rewrite register_all_plain.
Qed.

Lemma start_bounded : bounded (start ss e v).
Proof. intros nm n Hn. apply start_counters in Hn as ->. left. lia. Qed.

Lemma start_consistent : consistent (start ss e v).
Proof.
  unfold consistent. rewrite pending_names_unfold.
  destruct start_cases as [(_ & -> & -> & ->)|(_ & -> & -> & ->)].
  - repeat split; [|constructor..]. intros l Hl. by apply elem_of_nil in Hl.
  - simpl. rewrite app_nil_r. repeat split; [| |done].
    + intros l Hl. by apply list_elem_of_fmap in Hl as [s [-> _]].
    + by rewrite registrations_names.
Qed.

(** A counter never passes 4: the check that brings it there gives up. *)
Lemma reachable_counters_small (evs : list Event) (p : Process) (nm : string)
    (n : Z) :
  run evs (start ss e v) = Some p →
  failedAttempts p !! nm = Some (Num n) →
  0 ≤ n ≤ ATTEMPTS_BEFORE_GIVING_UP + 1.
Proof.
  intros Hr Hn.
  pose proof (run_bounded evs _ p start_consistent start_bounded Hr nm n Hn).
  unfold ATTEMPTS_BEFORE_GIVING_UP. lia.
Qed.
End Started.

Lemma matched_registered (ss : list Site) (s : Site) :
  NoDup (name <$> ss) → s ∈ ss → matched (name s) (registrations ss) = [s].
Proof.
  induction ss as [|a ss IH]; intros Hnd Hs; [by apply elem_of_nil in Hs|].
  rewrite fmap_cons in Hnd. apply NoDup_cons in Hnd as [Ha Hnd].
  unfold registrations, matched. rewrite fmap_cons, filter_cons. simpl.
  apply elem_of_cons in Hs as [->|Hs].
  - rewrite decide_True by done. simpl. f_equal.
    apply matched_none. by rewrite registrations_names.
  - rewrite decide_False.
    + by apply IH.
    + intros E. apply Ha. rewrite E. by apply list_elem_of_fmap_2.
Qed.

Lemma delete_last {A} (l : list A) (x : A) : delete (length l) (l ++ [x]) = l.
Proof. induction l as [|a l IH]; [done|]. simpl. by rewrite IH. Qed.

Lemma lookup_last {A} (l : list A) (x : A) : (l ++ [x]) !! length l = Some x.
Proof. induction l as [|a l IH]; [done|]. exact IH. Qed.

(** A timer that fires in a process with the listeners of [main]: the
    callback emits the event of its site, whose one listener starts one
    check of that site. *)
Lemma timer_fires (ss : list Site) (site : Site) (d : Z) (j : nat)
    (p : Process) :
  NoDup (name <$> ss) → listeners p = registrations ss → site ∈ ss →
  exited p = None → timers p !! j = Some (d, site) →
  ∃ p', step (TimerFires j) p = Some p' ∧
        fetching p' = fetching p ++ [site] ∧
        timers p' = delete j (timers p) ∧
        initiated (name site) p' = S (initiated (name site) p) ∧
        outbox p' = outbox p ∧
        failedAttempts p' = failedAttempts p ∧
        exited p' = None.
Proof.
  intros Hnd Hl Hsite Hx Hj.
  pose proof (step_TimerFires p j (d, site) Hx Hj) as Hs.
  eexists. split; [exact Hs|].
  destruct (checkCallback_effect site (set_timers (delete j) p))
    as [p' (Hc & Hf & Ht & _ & Hxp & Hfa & Ho & Hi)].
  { intros [_ Hu]. apply Hu. simpl. rewrite Hl, registrations_names.
    by apply list_elem_of_fmap_2. }
  simpl in *. rewrite Hc. simpl.
  rewrite Hf, Ht, Hfa, Ho, Hi, Hxp, Hl, (matched_registered ss site Hnd Hsite).
  repeat split; try done.
  rewrite filter_cons, decide_True by done. simpl.
  unfold initiated. simpl. lia.
Qed.

(** * The claims *)

(** ** C1: the counter after a successful check *)

(** C1 (as amended).  A check whose fetch comes back with status 200 and
    a readable body leaves the failure counter of every site at the value
    it had before the check, whether or not the body holds the expected
    text: nothing in the program writes 0 to a counter after startup. *)
Theorem success_keeps_counter (site : Site) (r : FetchResult) (html : string)
    (p : Process) :
  readable r = Some html →
  failedAttempts (check site r p).2 = failedAttempts p.
Proof.
  intros Hr. rewrite check_unfold.
  destruct (includes html (textMatch site)) eqn:Hi.
  - by rewrite (check_resume_found _ _ _ _ Hr Hi).
  - by rewrite (check_resume_not_found _ _ _ _ Hr Hi).
Qed.

Lemma success_keeps_counter_witness :
  readable page_up = Some "<p>This resource is temporarily unavailable.</p>" ∧
  failedAttempts (check LibTheatreRoom page_up (start sites env_ok VerifyOk)).2
    = failedAttempts (start sites env_ok VerifyOk).
Proof.
  split; [reflexivity|].
  apply (success_keeps_counter LibTheatreRoom page_up
           "<p>This resource is temporarily unavailable.</p>").
  reflexivity.
Defined.

(** C1, the claim as it stands, fails: after a failed check and then a
    check that found the page as expected (the timer armed is the one of
    [WAIT], 300000 ms), the counter of the site is 1, not 0. *)
Lemma success_does_not_reset_counter :
  ((λ p, (failedAttempts p !! "LibTheatreRoom", fst <$> timers p))
     <$> failure_then_success)
  = Some (Some (Num 1), [300000]).
Proof. vm_compute; reflexivity. Qed.

(** ** C2: escalation of failures *)

(** C2.  With [ATTEMPTS_BEFORE_GIVING_UP] = 3, a failing check adds
    exactly 1 to the counter of its site (a number that a double can still
    step by 1; [reachable_counters_small] shows the counters of a running
    process never pass 4 when the site names are unique and none of them
    is [newListener]); when that brings the counter to
    1 the check sends the single alert whose subject says "failed (once)"
    and returns [COOLDOWN]; when it brings it to 2 or 3 the check sends
    nothing and returns [COOLDOWN]; when it brings it above 3 the check
    sends the single alert whose subject says "giving up" and returns
    [GAVE_UP]. *)
Theorem failure_escalation (site : Site) (r : FetchResult) (p : Process)
    (n : Z) :
  readable r = None →
  failedAttempts p !! name site = Some (Num n) →
  n ≤ MAX_SAFE_INTEGER →
  ATTEMPTS_BEFORE_GIVING_UP = 3 ∧
  failedAttempts (check site r p).2 !! name site = Some (Num (n + 1)) ∧
  (n + 1 = 1 →
     (check site r p).1 = Some COOLDOWN ∧
     alerts_since p (check site r p).2 =
       [(subject_failed_once site, body_failed_once site (failure_reason r))]) ∧
  (n + 1 = 2 ∨ n + 1 = 3 →
     (check site r p).1 = Some COOLDOWN ∧
     alerts_since p (check site r p).2 = []) ∧
  (n + 1 > 3 →
     (check site r p).1 = Some GAVE_UP ∧
     alerts_since p (check site r p).2 =
       [(subject_giving_up site, body_giving_up site (failure_reason r))]).
Proof.
  intros Hr Hc Hmax. split; [reflexivity|].
  destruct (check_failed_counted site r p n Hr Hc Hmax) as (Hn & Hst & Hal).
  split; [done|]. rewrite Hst, Hal. unfold ATTEMPTS_BEFORE_GIVING_UP.
  destruct (Z.eqb_spec (n + 1) 1) as [E1|N1];
    [|destruct (Z.ltb_spec 3 (n + 1)) as [L3|G3]];
    repeat split; (done || lia).
Qed.

Lemma failure_escalation_witness :
  readable fetch_failed = None ∧
  failedAttempts (start sites env_ok VerifyOk) !! name LibTheatreRoom
    = Some (Num 0) ∧
  (check LibTheatreRoom fetch_failed (start sites env_ok VerifyOk)).1
    = Some COOLDOWN.
Proof.
  split; [reflexivity|]. split; [vm_compute; reflexivity|].
  refine (proj1 (proj1 (proj2 (proj2
    (failure_escalation LibTheatreRoom fetch_failed
       (start sites env_ok VerifyOk) 0 _ _ _))) _)).
  - reflexivity.
  - vm_compute; reflexivity.
  - vm_compute; discriminate.
  - reflexivity.
Defined.

(** ** C3: a notification that cannot be sent *)

(** C3 (as amended).  The status a check returns is decided by the
    outcome of its fetch and by the counter alone, while the mail it sends
    is still pending.  When the send then fails, the rejection leaves the
    failure counters, the timers and the checks in flight exactly as a
    send that succeeds leaves them, so it changes neither the status that
    the check returned nor any counter.  But the program neither logs nor
    catches the failure: it makes no call of the logger, the promise of
    that [sendAlert] call is rejected with no handler attached, and this
    ends the process with exit code 1, after which it takes no step. *)
Theorem send_failure_is_fatal (p : Process) (k : nat) (m : Mail)
    (e : JsError) :
  exited p = None →
  outbox p !! k = Some (m, Pending) →
  (∀ site r p0,
     (check site r p0).1
       = Some (verdict site r (failedAttempts p0 !! name site)) ∧
     Forall (λ a, a.2 = Pending)
            (drop (length (outbox p0)) (outbox (check site r p0).2))) ∧
  ∃ p' q, step (MailSettles k (SendThrows e)) p = Some p' ∧
          step (MailSettles k SendOk) p = Some q ∧
          failedAttempts p' = failedAttempts p ∧
          failedAttempts q = failedAttempts p ∧
          timers p' = timers p ∧ timers q = timers p ∧
          fetching p' = fetching p ∧ fetching q = fetching p ∧
          logged p' = logged p ∧
          logged q = logged p ++ [(LDebug, MsgSent (mail_subject m))] ∧
          outbox p' = <[k := (m, Rejected e)]> (outbox p) ∧
          outbox q = <[k := (m, Fulfilled)]> (outbox p) ∧
          exited q = None ∧
          exited p' = Some 1 ∧
          ∀ ev, step ev p' = None.
Proof.
  intros Hx Hk. split.
  { intros site r p0. split; [apply check_status|].
    rewrite check_outbox, drop_own_length. apply Forall_fmap.
    by apply Forall_forall. }
  eexists _, _.
  split; [by apply step_MailSettles_rejected|].
  split; [by apply step_MailSettles_fulfilled|].
  do 12 (split; [done|]). by intros ev.
Qed.

Lemma send_failure_is_fatal_witness :
  exited changed_state = None ∧
  outbox changed_state !! 0%nat =
    Some (alert changed_state (subject_contents_changed LibTheatreRoom)
                              (body_contents_changed LibTheatreRoom), Pending) ∧
  ∃ p', step (MailSettles 0 smtp_down) changed_state = Some p' ∧
        logged p' = logged changed_state ∧
        failedAttempts p' = failedAttempts changed_state ∧
        exited p' = Some 1.
Proof.
  assert (exited changed_state = None) as H1 by (vm_compute; reflexivity).
  assert (outbox changed_state !! 0%nat =
    Some (alert changed_state (subject_contents_changed LibTheatreRoom)
                              (body_contents_changed LibTheatreRoom), Pending))
    as H2 by (vm_compute; reflexivity).
  split; [exact H1|]. split; [exact H2|].
  destruct (send_failure_is_fatal changed_state 0
              (alert changed_state (subject_contents_changed LibTheatreRoom)
                                   (body_contents_changed LibTheatreRoom))
              {| error_toString := "Error: connect ETIMEDOUT" |}
              H1 H2)
    as [_ [p' [q (Hs & _ & Hf & _ & _ & _ & _ & _ & Hl & _ & _ & _ & _ & Hx & _)]]].
  exists p'. repeat split; assumption.
Defined.

(** C3, the claim as it stands, fails: when the send of the alert of the
    first check fails, the log holds exactly the lines it held before, the
    promise of the [sendAlert] call is rejected, and the process, which
    was running, has exited with code 1; the timer that the check armed
    never fires. *)
Lemma send_failure_not_logged_and_fatal :
  (logged <$> alert_failed) = (logged <$> alert_pending) ∧
  ((λ p, snd <$> outbox p) <$> alert_failed)
    = Some [Rejected {| error_toString := "Error: connect ETIMEDOUT" |}] ∧
  (exited <$> alert_pending) = Some None ∧
  (exited <$> alert_failed) = Some (Some 1) ∧
  ((λ p, fst <$> timers p) <$> alert_failed) = Some [14400000] ∧
  run [FetchSettles 0 page_changed; MailSettles 0 smtp_down; TimerFires 0]
      (start sites env_ok VerifyOk) = None.
Proof. do 5 (split; [vm_compute; reflexivity|]). vm_compute; reflexivity. Qed.

(** ** C4: the expected text is there *)

(** C4.  A check whose fetch comes back with status 200 and a body that
    holds [site.textMatch] as a literal substring returns [WAIT] and sends
    no alert, and the handler that ran it schedules the next check: it arms
    one timer, handing [setTimeout] exactly [site.interval] as the delay,
    and when that timer fires, in a process with the listeners that [main]
    registers for uniquely named sites, one check of the site starts. *)
Theorem found_waits_interval (ss : list Site) (site : Site) (r : FetchResult)
    (html : string) (p : Process) (i : nat) :
  NoDup (name <$> ss) → listeners p = registrations ss → site ∈ ss →
  readable r = Some html →
  (∃ pre post, html = pre +:+ textMatch site +:+ post) →
  exited p = None →
  fetching p !! i = Some site →
  (check site r p).1 = Some WAIT ∧
  alerts_since p (check site r p).2 = [] ∧
  ∃ p', step (FetchSettles i r) p = Some p' ∧
        outbox p' = outbox p ∧
        timers p' = timers p ++ [(interval site, site)] ∧
        fetching p' = delete i (fetching p) ∧
        exited p' = None ∧
        ∃ p'', step (TimerFires (length (timers p))) p' = Some p'' ∧
               timers p'' = timers p ∧
               fetching p'' = delete i (fetching p) ++ [site] ∧
               initiated (name site) p'' = S (initiated (name site) p') ∧
               exited p'' = None.
Proof.
  intros Hnd Hl Hsite Hr Hsub Hx Hi. apply includes_spec in Hsub.
  rewrite check_unfold, (check_resume_found _ _ _ _ Hr Hsub).
  split; [done|]. split; [unfold alerts_since; simpl; by rewrite drop_all|].
  eexists. split; [by apply step_FetchSettles|].
  rewrite handler_resume_unfold, (check_resume_found _ _ _ _ Hr Hsub).
  rewrite dispatch_WAIT. simpl. do 4 (split; [done|]).
  match goal with
  | |- ∃ _, step _ ?q = _ ∧ _ =>
      destruct (timer_fires ss site (interval site) (length (timers p)) q
                  Hnd Hl Hsite Hx (lookup_last _ _))
        as [p'' (Hs & Hf & Ht & Hin & _ & _ & Hx')]
  end.
  exists p''. simpl in *. rewrite delete_last in Ht. by repeat split.
Qed.

Lemma found_waits_interval_witness :
  NoDup (name <$> sites) ∧
  listeners (start sites env_ok VerifyOk) = registrations sites ∧
  LibTheatreRoom ∈ sites ∧
  readable page_up = Some "<p>This resource is temporarily unavailable.</p>" ∧
  exited (start sites env_ok VerifyOk) = None ∧
  fetching (start sites env_ok VerifyOk) !! 0%nat = Some LibTheatreRoom ∧
  (check LibTheatreRoom page_up (start sites env_ok VerifyOk)).1 = Some WAIT ∧
  interval LibTheatreRoom = 300000.
Proof.
  assert (NoDup (name <$> sites)) as H1 by apply NoDup_singleton.
  assert (listeners (start sites env_ok VerifyOk) = registrations sites) as H2
    by (vm_compute; reflexivity).
  assert (LibTheatreRoom ∈ sites) as H3 by (left; reflexivity).
  assert (exited (start sites env_ok VerifyOk) = None) as H4
    by (vm_compute; reflexivity).
  assert (fetching (start sites env_ok VerifyOk) !! 0%nat
            = Some LibTheatreRoom) as H5 by (vm_compute; reflexivity).
  split; [exact H1|]. split; [exact H2|]. split; [exact H3|].
  split; [reflexivity|]. split; [exact H4|]. split; [exact H5|].
  split; [|reflexivity].
  refine (proj1 (found_waits_interval sites LibTheatreRoom page_up
    "<p>This resource is temporarily unavailable.</p>"
    (start sites env_ok VerifyOk) 0 H1 H2 H3 _ _ H4 H5)).
  - reflexivity.
  - exists "<p>", "</p>". reflexivity.
Defined.

(** ** C5: the expected text is gone *)

(** C5.  A check whose fetch comes back with status 200 and a body that
    does not hold [site.textMatch] returns [COOLDOWN] and sends the single
    alert whose subject says the contents have changed, and the handler
    that ran it schedules the next check: it arms one timer, handing
    [setTimeout] exactly [site.msgCooldown] as the delay, and when that
    timer fires, in a process with the listeners that [main] registers
    for uniquely named sites, one check of the site starts. *)
Theorem changed_alerts_and_cools_down (ss : list Site) (site : Site)
    (r : FetchResult) (html : string) (p : Process) (i : nat) :
  NoDup (name <$> ss) → listeners p = registrations ss → site ∈ ss →
  readable r = Some html →
  ¬ (∃ pre post, html = pre +:+ textMatch site +:+ post) →
  exited p = None →
  fetching p !! i = Some site →
  (check site r p).1 = Some COOLDOWN ∧
  alerts_since p (check site r p).2 =
    [(subject_contents_changed site, body_contents_changed site)] ∧
  ∃ p', step (FetchSettles i r) p = Some p' ∧
        outbox p' =
          outbox p ++ [(alert p (subject_contents_changed site)
                                (body_contents_changed site), Pending)] ∧
        timers p' = timers p ++ [(msgCooldown site, site)] ∧
        fetching p' = delete i (fetching p) ∧
        exited p' = None ∧
        ∃ p'', step (TimerFires (length (timers p))) p' = Some p'' ∧
               timers p'' = timers p ∧
               fetching p'' = delete i (fetching p) ++ [site] ∧
               initiated (name site) p'' = S (initiated (name site) p') ∧
               exited p'' = None.
Proof.
  intros Hnd Hl Hsite Hr Hsub Hx Hi.
  assert (includes html (textMatch site) = false) as Hn.
  { destruct (includes html (textMatch site)) eqn:E; [|done].
    destruct Hsub. by apply includes_spec. }
  rewrite check_unfold, (check_resume_not_found _ _ _ _ Hr Hn).
  split; [done|].
  split; [unfold alerts_since; simpl; by rewrite drop_own_length|].
  eexists. split; [by apply step_FetchSettles|].
  rewrite handler_resume_unfold, (check_resume_not_found _ _ _ _ Hr Hn).
  rewrite dispatch_COOLDOWN. simpl. do 4 (split; [done|]).
  match goal with
  | |- ∃ _, step _ ?q = _ ∧ _ =>
      destruct (timer_fires ss site (msgCooldown site) (length (timers p)) q
                  Hnd Hl Hsite Hx (lookup_last _ _))
        as [p'' (Hs & Hf & Ht & Hin & _ & _ & Hx')]
  end.
  exists p''. simpl in *. rewrite delete_last in Ht. by repeat split.
Qed.

Lemma changed_alerts_and_cools_down_witness :
  NoDup (name <$> sites) ∧
  listeners (start sites env_ok VerifyOk) = registrations sites ∧
  LibTheatreRoom ∈ sites ∧
  readable page_changed = Some "<p>Book this room</p>" ∧
  includes "<p>Book this room</p>" (textMatch LibTheatreRoom) = false ∧
  (check LibTheatreRoom page_changed (start sites env_ok VerifyOk)).1
    = Some COOLDOWN ∧
  msgCooldown LibTheatreRoom = 14400000.
Proof.
  assert (NoDup (name <$> sites)) as H1 by apply NoDup_singleton.
  assert (listeners (start sites env_ok VerifyOk) = registrations sites) as H2
    by (vm_compute; reflexivity).
  assert (LibTheatreRoom ∈ sites) as H3 by (left; reflexivity).
  assert (exited (start sites env_ok VerifyOk) = None) as H4
    by (vm_compute; reflexivity).
  assert (fetching (start sites env_ok VerifyOk) !! 0%nat
            = Some LibTheatreRoom) as H5 by (vm_compute; reflexivity).
  split; [exact H1|]. split; [exact H2|]. split; [exact H3|].
  split; [reflexivity|]. split; [reflexivity|]. split; [|reflexivity].
  refine (proj1 (changed_alerts_and_cools_down sites LibTheatreRoom page_changed
    "<p>Book this room</p>" (start sites env_ok VerifyOk) 0 H1 H2 H3 _ _ H4 H5)).
  - reflexivity.
  - intros H. apply includes_spec in H. discriminate H.
Defined.

(** ** C6: giving up is final *)

(** C6.  With site names that are unique and none of which is
    [newListener], the event that [eventEmitter.on] itself emits: once the
    check of a site returns [GAVE_UP] in the running process, the handler
    arms no timer, and from then on, whatever the event loop runs, the site
    has no check in flight and no timer armed, and no check of it is
    started again. *)
Theorem gave_up_is_terminal (ss : list Site) (e : gmap string string)
    (v : VerifyResult) (evs : list Event) (p : Process) (i : nat)
    (r : FetchResult) (site : Site) :
  NoDup (name <$> ss) →
  ("newListener" ∉ name <$> ss) →
  run evs (start ss e v) = Some p →
  exited p = None →
  fetching p !! i = Some site →
  (check site r p).1 = Some GAVE_UP →
  ∃ p', step (FetchSettles i r) p = Some p' ∧
        timers p' = timers p ∧
        ∀ evs' p'', run evs' p' = Some p'' →
          (name site ∉ pending_names p'') ∧
          initiated (name site) p'' = initiated (name site) p'.
Proof.
  intros Hnd Hnl Hrun Hx Hi Hgave.
  pose proof (run_consistent evs _ p (start_consistent ss Hnd Hnl e v) Hrun)
    as Hc.
  pose proof (step_FetchSettles p i r site Hx Hi) as Hs.
  eexists. split; [exact Hs|].
  rewrite check_status in Hgave. injection Hgave as Hgave.
  destruct (step_gave_up p _ i r site Hc Hi Hgave Hs) as [Ht Hidle].
  split; [done|]. intros evs' p'' Hrun'.
  apply (run_idle evs' _ p''); [|done..].
  by apply (step_consistent (FetchSettles i r) p).
Qed.

Lemma gave_up_is_terminal_witness :
  NoDup (name <$> sites) ∧
  ("newListener" ∉ name <$> sites) ∧
  run three_failures (start sites env_ok VerifyOk) = Some after_three_failures ∧
  exited after_three_failures = None ∧
  fetching after_three_failures !! 0%nat = Some LibTheatreRoom ∧
  (check LibTheatreRoom fetch_failed after_three_failures).1 = Some GAVE_UP ∧
  ∃ p', step (FetchSettles 0 fetch_failed) after_three_failures = Some p' ∧
        timers p' = timers after_three_failures.
Proof.
  assert (NoDup (name <$> sites)) as H1 by apply NoDup_singleton.
  assert ("newListener" ∉ name <$> sites) as H0
    by (intros H; apply list_elem_of_singleton in H; discriminate H).
  assert (run three_failures (start sites env_ok VerifyOk)
            = Some after_three_failures) as H2 by (vm_compute; reflexivity).
  assert (exited after_three_failures = None) as Hx
    by (vm_compute; reflexivity).
  assert (fetching after_three_failures !! 0%nat = Some LibTheatreRoom) as H3
    by (vm_compute; reflexivity).
  assert ((check LibTheatreRoom fetch_failed after_three_failures).1
            = Some GAVE_UP) as H4 by (vm_compute; reflexivity).
  do 6 (split; [assumption|]).
  destruct (gave_up_is_terminal sites env_ok VerifyOk three_failures
              after_three_failures 0 fetch_failed LibTheatreRoom
              H1 H0 H2 Hx H3 H4)
    as [p' (Hs & Ht & _)].
  exists p'. split; assumption.
Defined.

(** The uniqueness of the names is needed: with two sites under one name
    an [emit] calls both listeners, and after one check has given up (the
    counter is at 4) the other checks go on: the fifth event below is the
    check that gives up, the sixth starts two more. *)
Example duplicate_names_keep_checking :
  (λ p, (failedAttempts p !! "LibTheatreRoom", initiated "LibTheatreRoom" p))
    <$> run [FetchSettles 0 fetch_failed; FetchSettles 0 fetch_failed;
             FetchSettles 0 fetch_failed; TimerFires 0;
             FetchSettles 0 fetch_failed]
            (start twins env_ok VerifyOk)
  = Some (Some (Num 4), 5%nat) ∧
  (λ p, (failedAttempts p !! "LibTheatreRoom", initiated "LibTheatreRoom" p))
    <$> run [FetchSettles 0 fetch_failed; FetchSettles 0 fetch_failed;
             FetchSettles 0 fetch_failed; TimerFires 0;
             FetchSettles 0 fetch_failed; TimerFires 0]
            (start twins env_ok VerifyOk)
  = Some (Some (Num 4), 7%nat).
Proof. split; vm_compute; reflexivity. Qed.

(** So is the exclusion of the name [newListener]: when the listener of
    the second site is added, the emitter calls the listener of a first
    site of that name, which is thus checked twice from the start; after
    one of its two cycles has given up (the sixth event below, the
    counter is at 4) the other one goes on, counts a fifth failure and
    gives up a second time. *)
Example newListener_site_keeps_checking :
  name <$> fetching (start [eavesdropper; LibTheatreRoom] env_ok VerifyOk)
    = ["newListener"; "newListener"; "LibTheatreRoom"] ∧
  (λ p, (failedAttempts p !! "newListener", pending_names p))
    <$> run [FetchSettles 0 fetch_failed; FetchSettles 0 fetch_failed;
             TimerFires 0; TimerFires 0;
             FetchSettles 1 fetch_failed; FetchSettles 1 fetch_failed]
            (start [eavesdropper; LibTheatreRoom] env_ok VerifyOk)
  = Some (Some (Num 4), ["LibTheatreRoom"; "newListener"]) ∧
  (λ p, (failedAttempts p !! "newListener", pending_names p,
         sent_with (subject_giving_up eavesdropper) p))
    <$> run [FetchSettles 0 fetch_failed; FetchSettles 0 fetch_failed;
             TimerFires 0; TimerFires 0;
             FetchSettles 1 fetch_failed; FetchSettles 1 fetch_failed;
             TimerFires 0; FetchSettles 1 fetch_failed]
            (start [eavesdropper; LibTheatreRoom] env_ok VerifyOk)
  = Some (Some (Num 5), ["LibTheatreRoom"], 2%nat).
Proof. do 2 (split; [vm_compute; reflexivity|]). vm_compute; reflexivity. Qed.

(** ** C7: the default branch of the switch *)

(** C7.  A status number that is none of the four members of [STATUS]
    makes the switch of [handler] log an error and exit the process with
    code 1; and no check reaches that branch: [check] returns [COOLDOWN],
    [WAIT] or [GAVE_UP], never [READY], and the [handler] that runs it
    comes back without exiting. *)
Theorem unknown_status_exits_but_is_unreachable (site : Site) (code : Z)
    (r : FetchResult) (p : Process) :
  (∀ s, code ≠ STATUS_value s) →
  ((dispatch site code p).1 = None ∧
   exited (dispatch site code p).2 = Some 1) ∧
  (∃ st, (check site r p).1 = Some st ∧
         (st = COOLDOWN ∨ st = WAIT ∨ st = GAVE_UP)) ∧
  (handler site r p).1 = Some tt ∧
  exited (handler site r p).2 = exited p.
Proof.
  intros Hcode. split; [by rewrite dispatch_unknown|].
  split.
  - destruct (check_frame site r p) as [st [p' [-> [Hst _]]]].
    exists st. split; [done|]. destruct st; auto. done.
  - rewrite handler_unfold.
    destruct (check_frame site r
      (set_logged (λ ls, ls ++ [(LInfo, MsgCheckInitiated (name site))]) p))
      as [st [p' [-> (Hst & _ & _ & _ & _ & Hx & _)]]].
    destruct st; [| |done|].
    + rewrite dispatch_COOLDOWN. by simpl.
    + rewrite dispatch_WAIT. by simpl.
    + rewrite dispatch_GAVE_UP. by simpl.
Qed.

Lemma unknown_status_exits_but_is_unreachable_witness :
  (∀ s, 4 ≠ STATUS_value s) ∧
  exited (dispatch LibTheatreRoom 4 (start sites env_ok VerifyOk)).2 = Some 1.
Proof.
  assert (∀ s, 4 ≠ STATUS_value s) as H by (intros s; destruct s; discriminate).
  split; [exact H|].
  exact (proj2 (proj1 (unknown_status_exits_but_is_unreachable
    LibTheatreRoom 4 fetch_failed (start sites env_ok VerifyOk) H))).
Defined.

(** ** C8: startup *)

(** C8.  When [MAIL_USERNAME] or [MAIL_APP_PASSWORD] is missing from the
    environment, or when the awaited verification of the mail transport
    fails, [main] exits the process with code 1 before it registers any
    site: no listener, no check in flight, no timer, no check ever
    started, and the process takes no further step. *)
Theorem startup_aborts (ss : list Site) (e : gmap string string)
    (v : VerifyResult) :
  e !! "MAIL_USERNAME" = None ∨ e !! "MAIL_APP_PASSWORD" = None
    ∨ v ≠ VerifyOk →
  (main_with ss v (boot e)).1 = None ∧
  exited (start ss e v) = Some 1 ∧
  listeners (start ss e v) = [] ∧
  fetching (start ss e v) = [] ∧
  timers (start ss e v) = [] ∧
  (∀ nm, initiated nm (start ss e v) = 0%nat) ∧
  (∀ evs p, evs ≠ [] → run evs (start ss e v) ≠ Some p).
Proof.
  intros H. unfold start.
  assert (∀ p, exited p = Some 1 → ∀ evs q, evs ≠ [] → run evs p ≠ Some q)
    as Hstuck.
  { intros p Hx [|ev evs] q Hne; [done|]. simpl. unfold step. by rewrite Hx. }
  destruct (decide (e !! "MAIL_USERNAME" = None ∨ e !! "MAIL_APP_PASSWORD" = None))
    as [Hm|Hm].
  - rewrite main_with_missing_env by done. simpl.
    repeat split; try done. by apply Hstuck.
  - destruct v as [|err].
    { destruct H as [H|[H|H]]; [by destruct Hm; left | by destruct Hm; right | done]. }
    rewrite main_with_unverified by done. simpl.
    repeat split; try done. by apply Hstuck.
Qed.

Lemma startup_aborts_witness :
  ((∅ : gmap string string) !! "MAIL_USERNAME" = None) ∧
  exited (start sites ∅ VerifyOk) = Some 1 ∧
  fetching (start sites ∅ VerifyOk) = [].
Proof.
  split; [reflexivity|].
  pose proof (startup_aborts sites ∅ VerifyOk (or_introl eq_refl)) as H.
  split; [exact (proj1 (proj2 H)) | exact (proj1 (proj2 (proj2 (proj2 H))))].
Defined.

(** ** C9: determinism *)

(** C9.  Two checks of the same site that both start from a failure
    counter of 0 and whose awaits come back with the same outcome return
    the same status and send the same alerts, whatever else the two
    process states hold. *)
Theorem check_deterministic_on_fresh_counter (site : Site) (r : FetchResult)
    (p1 p2 : Process) :
  failedAttempts p1 !! name site = Some (Num 0) →
  failedAttempts p2 !! name site = Some (Num 0) →
  (check site r p1).1 = (check site r p2).1 ∧
  alerts_since p1 (check site r p1).2 = alerts_since p2 (check site r p2).2.
Proof.
  intros H1 H2. destruct (readable r) as [html|] eqn:Hr.
  - rewrite !check_unfold. destruct (includes html (textMatch site)) eqn:Hi.
    + rewrite !(check_resume_found _ _ _ _ Hr Hi). unfold alerts_since. simpl.
      by rewrite !drop_all.
    + rewrite !(check_resume_not_found _ _ _ _ Hr Hi). unfold alerts_since.
      simpl. by rewrite !drop_own_length.
  - assert (0 ≤ MAX_SAFE_INTEGER) as Hmax by (vm_compute; discriminate).
    destruct (check_failed_counted site r p1 0 Hr H1 Hmax) as (_ & -> & ->).
    by destruct (check_failed_counted site r p2 0 Hr H2 Hmax) as (_ & -> & ->).
Qed.

Lemma check_deterministic_on_fresh_counter_witness :
  failedAttempts (start sites env_ok VerifyOk) !! name LibTheatreRoom
    = Some (Num 0) ∧
  failedAttempts
    (set_failedAttempts (λ _, {[ "LibTheatreRoom" := Num 0 ]}) (boot ∅))
      !! name LibTheatreRoom = Some (Num 0) ∧
  (check LibTheatreRoom page_changed (start sites env_ok VerifyOk)).1
    = (check LibTheatreRoom page_changed
         (set_failedAttempts (λ _, {[ "LibTheatreRoom" := Num 0 ]}) (boot ∅))).1.
Proof.
  split; [vm_compute; reflexivity|]. split; [vm_compute; reflexivity|].
  refine (proj1 (check_deterministic_on_fresh_counter LibTheatreRoom page_changed
    (start sites env_ok VerifyOk)
    (set_failedAttempts (λ _, {[ "LibTheatreRoom" := Num 0 ]}) (boot ∅)) _ _)).
  - vm_compute; reflexivity.
  - vm_compute; reflexivity.
Defined.

(** ** C10: the counter over the life of the process *)

(** C10.  In a process that started, the counter of every configured
    site (other than one called [__proto__], a name under which a plain
    object stores nothing) is a number that starts at 0 and that no step
    of the event loop lowers; so over any series of checks of a site the
    counter is the number of failed checks so far (as far as a double
    counts), whatever number of successful checks lies between them, and a
    check gives up exactly when it fails and brings that number above
    [ATTEMPTS_BEFORE_GIVING_UP]. *)
Theorem counter_never_decreases (ss : list Site) (e : gmap string string)
    (v : VerifyResult) (evs evs' : list Event) (p p' : Process) (s : Site) :
  s ∈ ss → name s ≠ "__proto__" →
  exited (start ss e v) = None →
  run evs (start ss e v) = Some p →
  run evs' p = Some p' →
  failedAttempts (start ss e v) !! name s = Some (Num 0) ∧
  (∃ n n', failedAttempts p !! name s = Some (Num n) ∧
           failedAttempts p' !! name s = Some (Num n') ∧ 0 ≤ n ≤ n') ∧
  ∀ rs q, failedAttempts q !! name s = Some (Num 0) →
    ∃ sts q', check_seq s rs q = (Some sts, q') ∧
              failedAttempts q' !! name s
                = Some (Num (saturated (failures rs))) ∧
              ∀ k r, rs !! k = Some r →
                (sts !! k = Some GAVE_UP
                 ↔ readable r = None
                   ∧ failures (take (S k) rs) > ATTEMPTS_BEFORE_GIVING_UP).
Proof.
  intros Hs Hname Hx Hrun Hrun'.
  assert (failedAttempts (start ss e v) !! name s = Some (Num 0)) as H0.
  { destruct (start_running ss e v Hx) as (_ & _ & ->).
    rewrite decide_True; [done|]. split; [by apply list_elem_of_fmap_2 | done]. }
  split; [done|]. split.
  - destruct (run_counters_le _ _ _ Hrun _ _ H0) as [n [Hn ?]].
    destruct (run_counters_le _ _ _ Hrun' _ _ Hn) as [n' [Hn' ?]].
    exists n, n'. repeat split; (done || lia).
  - intros rs q Hq.
    destruct (check_seq_counted s rs q 0 Hq) as [sts [q' (Hc & Hfa & Hk)]].
    exists sts, q'. split; [done|]. split; [by rewrite Hfa, Z.add_0_l|].
    intros k r Hr. rewrite (Hk k r Hr), Z.add_0_l.
    rewrite (take_S_r _ _ _ Hr), failures_app, failures_cons.
    change (failures []) with 0.
    split.
    + intros Hv. injection Hv as Hv. apply verdict_GAVE_UP in Hv as [Hr0 Hv].
      apply (proj1 (saturated_above _)) in Hv.
      unfold ATTEMPTS_BEFORE_GIVING_UP in *.
      split; [done|]. rewrite decide_True by done. lia.
    + intros [Hr0 Hv]. f_equal. apply verdict_GAVE_UP. split; [done|].
      apply (proj2 (saturated_above _)). rewrite decide_True in Hv by done.
      unfold ATTEMPTS_BEFORE_GIVING_UP in *. lia.
Qed.

Lemma counter_never_decreases_witness :
  LibTheatreRoom ∈ sites ∧ name LibTheatreRoom ≠ "__proto__" ∧
  exited (start sites env_ok VerifyOk) = None ∧
  run three_failures (start sites env_ok VerifyOk) = Some after_three_failures ∧
  (check_seq LibTheatreRoom interleaved (start sites env_ok VerifyOk)).1
    = Some [COOLDOWN; WAIT; COOLDOWN; WAIT; WAIT; COOLDOWN; WAIT; GAVE_UP] ∧
  ∃ n, failedAttempts after_three_failures !! name LibTheatreRoom
         = Some (Num n) ∧ 0 ≤ n.
Proof.
  assert (LibTheatreRoom ∈ sites) as H1 by (left; reflexivity).
  assert (name LibTheatreRoom ≠ "__proto__") as H2 by discriminate.
  assert (exited (start sites env_ok VerifyOk) = None) as H3
    by (vm_compute; reflexivity).
  assert (run three_failures (start sites env_ok VerifyOk)
            = Some after_three_failures) as H4 by (vm_compute; reflexivity).
  do 4 (split; [assumption|]).
  split; [vm_compute; reflexivity|].
  destruct (counter_never_decreases sites env_ok VerifyOk three_failures []
              after_three_failures after_three_failures LibTheatreRoom
              H1 H2 H3 H4 eq_refl) as (_ & (n & n' & Hn & _ & Hle) & _).
  exists n. split; [exact Hn | lia].
Defined.

(** The scenario of the interleaved failures, through the event loop: the
    fourth failed check gives up although a successful check came before
    each of the last three. *)
Example interleaved_failures_give_up :
  (λ p, (failedAttempts p !! "LibTheatreRoom", pending_names p,
         mail_subject <$> (outbox p).*1))
    <$> run [FetchSettles 0 fetch_failed; TimerFires 0;
             FetchSettles 0 page_up; TimerFires 0;
             FetchSettles 0 fetch_failed; TimerFires 0;
             FetchSettles 0 page_up; TimerFires 0;
             FetchSettles 0 fetch_failed; TimerFires 0;
             FetchSettles 0 page_up; TimerFires 0;
             FetchSettles 0 fetch_failed]
            (start sites env_ok VerifyOk)
  = Some (Some (Num 4), [],
          ["Content Check for LibTheatreRoom failed (once)";
           "Content Check for LibTheatreRoom failed 3 times, we're giving up."]).
Proof. vm_compute; reflexivity. Qed.

(** * Further properties *)

(** ** What [main] leaves, whatever the sites *)

(** ** The mails of a check and of a step *)

Lemma alerts_of_short (site : Site) (r : FetchResult) (slot : option jsnum) :
  (length (alerts_of site r slot) ≤ 1)%nat.
Proof.
  unfold alerts_of. destruct (readable r) as [html|].
  - destruct (includes html (textMatch site)); simpl; lia.
  - destruct (js_succ (to_number slot)) as [k|]; [|simpl; lia].
    destruct (k =? 1); [|destruct (ATTEMPTS_BEFORE_GIVING_UP <? k)];
      simpl; lia.
Qed.

Lemma checkCallback_env (site : Site) (p : Process) :
  env (checkCallback site p).2 = env p.
Proof.
  by destruct (checkCallback_state site p) as (_ & _ & _ & _ & _ & _ & He & _).
Qed.

(** The environment survives every step, and the mails handed to the
    transport grow by the alerts of the step. *)
Lemma step_mails (ev : Event) (p p' : Process) :
  step ev p = Some p' →
  env p' = env p ∧
  (outbox p').*1 =
    (outbox p).*1 ++ ((λ a, alert p a.1 a.2) <$> step_alerts ev p).
Proof.
  intros Hs. unfold step in Hs.
  destruct (exited p) as [c|] eqn:Hx; [discriminate|].
  destruct ev as [i r|j|k r]; simpl.
  - destruct (fetching p !! i) as [site|] eqn:Hi; [|discriminate].
    simpl in Hs. injection Hs as <-.
    pose proof (check_resume_outbox site r (set_fetching (delete i) p)) as Ho.
    rewrite handler_resume_unfold.
    destruct (check_resume_frame site r (set_fetching (delete i) p))
      as [st [q [Hq (Hst & He & _)]]].
    rewrite Hq in Ho |- *. simpl in Ho, He.
    assert (env (dispatch site (STATUS_value st) q).2 = env q ∧
            outbox (dispatch site (STATUS_value st) q).2 = outbox q)
      as [-> ->].
    { destruct st; [| |done|].
      - by rewrite dispatch_COOLDOWN.
      - by rewrite dispatch_WAIT.
      - by rewrite dispatch_GAVE_UP. }
    split; [done|]. rewrite Ho, fmap_app, <- list_fmap_compose. done.
  - destruct (timers p !! j) as [t|] eqn:Hj; [|discriminate].
    simpl in Hs. injection Hs as <-.
    rewrite checkCallback_env.
    destruct (checkCallback_state t.2 (set_timers (delete j) p))
      as (_ & _ & _ & _ & _ & Ho & _).
    rewrite Ho. simpl. by rewrite app_nil_r.
  - unfold sendAlert_settle, logger, gets, modify, mbind, M_bind, mret, M_ret
      in Hs.
    destruct (outbox p !! k) as [[m [| |e]]|] eqn:Hk; try discriminate.
    rewrite app_nil_r.
    destruct r as [|e]; injection Hs as <-; simpl; (split; [done|]);
      rewrite list_fmap_insert; simpl; apply list_insert_id;
      by rewrite list_lookup_fmap, Hk.
Qed.

(** ** Subjects and site names *)

Lemma append_inj_l (a x y : string) : a +:+ x = a +:+ y → x = y.
Proof.
  induction a as [|c a IH]; [done|]. rewrite !append_cons.
  intros H. injection H as H. by apply IH.
Qed.

Lemma length_append (a b : string) :
  String.length (a +:+ b) = (String.length a + String.length b)%nat.
Proof.
  induction a as [|c a IH]; [done|]. rewrite append_cons. simpl. by rewrite IH.
Qed.

Lemma append_inj_r (a b c : string) : a +:+ c = b +:+ c → a = b.
Proof.
  revert b. induction a as [|x a IH]; intros [|y b] H.
  - done.
  - apply (f_equal String.length) in H. rewrite !length_append in H.
    simpl in H. lia.
  - apply (f_equal String.length) in H. rewrite !length_append in H.
    simpl in H. lia.
  - rewrite !append_cons in H. injection H as -> H. f_equal. by apply IH.
Qed.

Lemma subject_failed_once_inj (s s' : Site) :
  subject_failed_once s = subject_failed_once s' → name s = name s'.
Proof.
  unfold subject_failed_once. intros H.
  apply append_inj_l in H. by apply append_inj_r in H.
Qed.

Lemma subject_giving_up_inj (s s' : Site) :
  subject_giving_up s = subject_giving_up s' → name s = name s'.
Proof.
  unfold subject_giving_up. intros H.
  apply append_inj_l in H. by apply append_inj_r in H.
Qed.

Lemma subject_contents_changed_inj (s s' : Site) :
  subject_contents_changed s = subject_contents_changed s' → name s = name s'.
Proof.
  unfold subject_contents_changed. intros H.
  apply append_inj_l in H. by apply append_inj_r in H.
Qed.

Lemma sent_with_app (subject : string) (p p' : Process) (ms : list Mail) :
  (outbox p').*1 = (outbox p).*1 ++ ms →
  sent_with subject p' =
    (sent_with subject p
     + length (filter (λ m, mail_subject m = subject) ms))%nat.
Proof. intros E. unfold sent_with. by rewrite E, filter_app, length_app. Qed.

(** ** Invariants of a process that started *)

Lemma matched_known (ss : list Site) (ev : string) (s : Site) :
  s ∈ matched ev (registrations ss) → s ∈ ss.
Proof.
  unfold matched, registrations. intros Hs.
  apply list_elem_of_fmap in Hs as [[n s'] [-> Hin]].
  apply list_elem_of_filter in Hin as [_ Hin].
  apply list_elem_of_fmap in Hin as [s'' [E Hin]]. simpl.
  by injection E as _ ->.
Qed.

Lemma armed_known (site : Site) (st : STATUS) (t : Z * Site) :
  t ∈ armed site st →
  t.2 = site ∧ (t.1 = interval site ∨ t.1 = msgCooldown site).
Proof.
  destruct st; simpl; intros H.
  - apply list_elem_of_singleton in H as ->. auto.
  - apply list_elem_of_singleton in H as ->. auto.
  - by apply elem_of_nil in H.
  - by apply elem_of_nil in H.
Qed.

Lemma elem_of_delete_other {A} (l : list A) (i : nat) (x y : A) :
  l !! i = Some y → x ∈ l → x = y ∨ x ∈ delete i l.
Proof.
  intros Hi Hx. rewrite (delete_Permutation _ _ _ Hi) in Hx.
  by apply elem_of_cons in Hx.
Qed.

Lemma elem_of_delete_old {A} (l : list A) (i : nat) (x : A) :
  x ∈ delete i l → x ∈ l.
Proof. intros Hx. apply (elem_of_sublist _ _ _ Hx), sublist_delete. Qed.

Lemma step_known (ss : list Site) (ev : Event) (p p' : Process) :
  listeners p = registrations ss → known ss p → step ev p = Some p' →
  known ss p'.
Proof.
  intros Hl [Hf Ht] Hs.
  destruct (step_cases ev p p' Hs) as (_ & _ & _ & _ & Hcase).
  destruct Hcase as [(i & r & site & st & _ & Hi & _ & _ & Hf' & Ht' & _)
                    |[(j & t & _ & Hj & Hf' & Ht' & _)
                    |(k & r & _ & Hf' & Ht' & _)]]; split.
  - intros s Hs'. rewrite Hf' in Hs'. by apply elem_of_delete_old, Hf in Hs'.
  - intros t Ht''. rewrite Ht' in Ht''.
    apply elem_of_app in Ht'' as [?|Ha]; [by apply Ht|].
    apply armed_known in Ha as [-> _].
    by apply list_elem_of_lookup_2, Hf in Hi.
  - intros s Hs'. rewrite Hf' in Hs'.
    apply elem_of_app in Hs' as [?|Hm]; [by apply Hf|].
    rewrite Hl in Hm. by apply matched_known in Hm.
  - intros t' Ht''. rewrite Ht' in Ht''.
    by apply elem_of_delete_old, Ht in Ht''.
  - intros s. rewrite Hf'. apply Hf.
  - intros t. rewrite Ht'. apply Ht.
Qed.

Lemma verdict_GAVE_UP_slot (site : Site) (r : FetchResult) (slot : option jsnum) :
  verdict site r slot = GAVE_UP →
  readable r = None ∧
  ∃ n, slot = Some (Num n) ∧ ATTEMPTS_BEFORE_GIVING_UP ≤ n.
Proof.
  intros Hv. destruct slot as [[n|]|].
  - apply verdict_GAVE_UP in Hv as [Hr Hn]. split; [done|]. by exists n.
  - unfold verdict in Hv. simpl in Hv.
    destruct (readable r) as [html|]; [|discriminate].
    by destruct (includes html (textMatch site)).
  - unfold verdict in Hv. simpl in Hv.
    destruct (readable r) as [html|]; [|discriminate].
    by destruct (includes html (textMatch site)).
Qed.

Lemma fetching_pending (p : Process) (i : nat) (site : Site) :
  fetching p !! i = Some site → name site ∈ pending_names p.
Proof.
  intros Hi. rewrite pending_names_unfold. apply elem_of_app. left.
  apply list_elem_of_fmap_2. by apply list_elem_of_lookup_2 in Hi.
Qed.

Lemma timer_pending (p : Process) (j : nat) (t : Z * Site) :
  timers p !! j = Some t → name t.2 ∈ pending_names p.
Proof.
  intros Hj. rewrite pending_names_unfold. apply elem_of_app. right.
  apply (list_elem_of_fmap_2 (λ t, name t.2)).
  by apply list_elem_of_lookup_2 in Hj.
Qed.

(** A pending name other than the one a step works on stays pending. *)
Lemma pending_after_fetch (p p' : Process) (i : nat) (site : Site)
    (st : STATUS) (nm : string) :
  fetching p !! i = Some site →
  fetching p' = delete i (fetching p) →
  timers p' = timers p ++ armed site st →
  nm ∈ pending_names p → nm ≠ name site → nm ∈ pending_names p'.
Proof.
  intros Hi Hf Ht Hnm Hne. rewrite pending_names_unfold in *.
  rewrite Hf, Ht, fmap_app.
  apply elem_of_app in Hnm as [Hnm|Hnm].
  - apply elem_of_app. left.
    apply list_elem_of_fmap in Hnm as [s [-> Hs]].
    destruct (elem_of_delete_other _ _ _ _ Hi Hs) as [->|Hd]; [done|].
    by apply list_elem_of_fmap_2.
  - apply elem_of_app. right. apply elem_of_app. by left.
Qed.

Lemma pending_after_timer (p p' : Process) (j : nat) (t : Z * Site)
    (ms : list Site) (nm : string) :
  timers p !! j = Some t →
  fetching p' = fetching p ++ ms →
  timers p' = delete j (timers p) →
  nm ∈ pending_names p → nm ≠ name t.2 → nm ∈ pending_names p'.
Proof.
  intros Hj Hf Ht Hnm Hne. rewrite pending_names_unfold in *.
  rewrite Hf, Ht, fmap_app.
  apply elem_of_app in Hnm as [Hnm|Hnm].
  - apply elem_of_app. left. apply elem_of_app. by left.
  - apply elem_of_app. right.
    apply list_elem_of_fmap in Hnm as [t' [-> Ht']].
    destruct (elem_of_delete_other _ _ _ _ Hj Ht') as [->|Hd]; [done|].
    by apply (list_elem_of_fmap_2 (λ t, name t.2)).
Qed.

Lemma step_counter_fetch (p p' : Process) (i : nat) (r : FetchResult)
    (site : Site) :
  step (FetchSettles i r) p = Some p' →
  fetching p !! i = Some site →
  failedAttempts p' =
    match readable r with
    | Some _ => failedAttempts p
    | None =>
        js_assign (name site)
          (js_succ (to_number (failedAttempts p !! name site)))
          (failedAttempts p)
    end.
Proof.
  intros Hs Hi.
  destruct (step_counter _ _ _ Hs) as [E|(i' & r' & site' & Hev & Hi' & Hr & E)].
  - destruct (readable r) eqn:Hr; [done|].
    destruct (step_cases _ _ _ Hs) as (Hx & _).
    rewrite (step_FetchSettles p i r site Hx Hi) in Hs. injection Hs as <-.
    rewrite handler_resume_unfold.
    pose proof (check_resume_counter site r (set_fetching (delete i) p)) as Hc.
    destruct (check_resume_frame site r (set_fetching (delete i) p))
      as [st [q [Hq [Hst _]]]].
    rewrite Hq in Hc |- *. rewrite Hr in Hc. simpl in Hc.
    destruct st; [| |done|].
    + by rewrite dispatch_COOLDOWN.
    + by rewrite dispatch_WAIT.
    + by rewrite dispatch_GAVE_UP.
  - injection Hev as <- <-. rewrite Hi in Hi'. injection Hi' as <-.
    by rewrite Hr.
Qed.

Lemma step_counter_other (ev : Event) (p p' : Process) :
  step ev p = Some p' →
  (∀ i r, ev ≠ FetchSettles i r) →
  failedAttempts p' = failedAttempts p.
Proof.
  intros Hs Hne.
  destruct (step_counter _ _ _ Hs) as [E|(i & r & site & Hev & _)]; [done|].
  by destruct (Hne i r).
Qed.

Lemma step_monitored (ss : list Site) (ev : Event) (p p' : Process) :
  consistent p → bounded p → listeners p = registrations ss →
  known ss p → monitored ss p → step ev p = Some p' →
  monitored ss p'.
Proof.
  intros Hc Hb Hl [Hkf Hkt] Hm Hs s Hin.
  assert (NoDup (name <$> ss)) as Hnd.
  { destruct Hc as (_ & Hnd & _). by rewrite Hl, registrations_names in Hnd. }
  destruct (step_cases ev p p' Hs) as (_ & _ & _ & _ & Hcase).
  destruct Hcase as [(i & r & site & st & -> & Hi & Hst & Hne & Hf & Ht & _)
                    |[(j & t & -> & Hj & Hf & Ht & _)
                    |(k & r & -> & Hf & Ht & Hfa & _)]].
  - rewrite check_resume_status in Hst. simpl in Hst. injection Hst as Hst.
    pose proof (step_counter_fetch p p' i r site Hs Hi) as Hcnt.
    destruct (decide (name s = name site)) as [E|E].
    + rewrite E. destruct st; [left|left|done|right].
      * rewrite pending_names_unfold, Ht. simpl. rewrite fmap_app. simpl.
        apply elem_of_app. right. apply elem_of_app. right. by left.
      * rewrite pending_names_unfold, Ht. simpl. rewrite fmap_app. simpl.
        apply elem_of_app. right. apply elem_of_app. right. by left.
      * apply verdict_GAVE_UP_slot in Hst as (Hr & n & Hn & Hle).
        unfold ATTEMPTS_BEFORE_GIVING_UP in Hle.
        destruct (Hb _ _ Hn) as [Hn3|[_ Hidle]];
          [|by destruct Hidle; apply (fetching_pending p i)].
        assert (n = 3) as -> by lia.
        rewrite Hcnt, Hr, js_assign_own by (by rewrite Hn).
        rewrite lookup_insert_eq, Hn. simpl.
        pose proof MAX_SAFE_INTEGER_ge. by rewrite succ_double_exact by lia.
    + assert (failedAttempts p' !! name s = failedAttempts p !! name s) as Hsame.
      { rewrite Hcnt. destruct (readable r); [done|].
        by rewrite js_assign_lookup_ne. }
      rewrite Hsame. destruct (Hm s Hin) as [Hp|H4]; [left|by right].
      by apply (pending_after_fetch p p' i site st).
  - rewrite (step_counter_other _ _ _ Hs) by done.
    destruct (decide (name s = name t.2)) as [E|E].
    + left. rewrite E, pending_names_unfold, Hf, Hl.
      rewrite (matched_registered ss t.2 Hnd)
        by (by apply list_elem_of_lookup_2, Hkt in Hj).
      rewrite fmap_app. apply elem_of_app. left. apply elem_of_app. right.
      by left.
    + destruct (Hm s Hin) as [Hp|H4]; [left|by right].
      by apply (pending_after_timer p p' j t
                  (matched (name t.2) (listeners p))).
  - rewrite Hfa. destruct (Hm s Hin) as [Hp|H4]; [left|by right].
    by rewrite pending_names_unfold, Hf, Ht.
Qed.

Lemma alert_filter (p : Process) (subject : string)
    (al : list (string * string)) :
  length (filter (λ m, mail_subject m = subject)
            ((λ a, alert p a.1 a.2) <$> al))
  = length (filter (λ a, a.1 = subject) al).
Proof.
  induction al as [|a al IH]; [done|].
  rewrite fmap_cons, !filter_cons. simpl.
  destruct (decide (a.1 = subject)); simpl; by rewrite IH.
Qed.

Lemma subject_failed_once_name (s s' : Site) :
  name s = name s' → subject_failed_once s = subject_failed_once s'.
Proof. unfold subject_failed_once. by intros ->. Qed.

Lemma subject_giving_up_name (s s' : Site) :
  name s = name s' → subject_giving_up s = subject_giving_up s'.
Proof. unfold subject_giving_up. by intros ->. Qed.

Lemma count_single (subject : string) (a : string * string) :
  length (filter (λ a, a.1 = subject) [a])
  = if decide (a.1 = subject) then 1%nat else 0%nat.
Proof. rewrite filter_cons, filter_nil. by destruct (decide (a.1 = subject)). Qed.

(** How many "failed (once)" and "giving up" mails of a site a check
    on a counter between 0 and 3 sends. *)
Lemma alerts_of_failed_once (site s : Site) (r : FetchResult) (m : Z) :
  0 ≤ m ≤ 3 →
  length (filter (λ a, a.1 = subject_failed_once s)
            (alerts_of site r (Some (Num m))))
  = if decide (readable r = None ∧ m = 0 ∧ name s = name site)
    then 1%nat else 0%nat.
Proof.
  intros Hm. pose proof MAX_SAFE_INTEGER_ge.
  destruct (subjects_distinct s site) as (Hfg & Hfc & _).
  unfold alerts_of, ATTEMPTS_BEFORE_GIVING_UP. cbn [to_number js_succ].
  rewrite succ_double_exact by lia.
  destruct (readable r) as [html|].
  - rewrite (decide_False (P := _ ∧ _)) by (by intros [? _]).
    destruct (includes html (textMatch site)); [done|].
    rewrite count_single. cbn [fst]. by rewrite decide_False by done.
  - destruct (Z.eqb_spec (m + 1) 1) as [E|E].
    + rewrite count_single. cbn [fst].
      destruct (decide (name s = name site)) as [En|En].
      * rewrite decide_True by (symmetry; by apply subject_failed_once_name).
        rewrite decide_True; [done|]. repeat split; (done || lia).
      * rewrite decide_False
          by (intros E'; symmetry in E'; by apply subject_failed_once_inj in E').
        rewrite decide_False; [done|]. by intros (_ & _ & ?).
    + rewrite (decide_False (P := _ ∧ _)) by (intros (_ & ? & _); lia).
      destruct (3 <? m + 1); [|done].
      rewrite count_single. cbn [fst]. by rewrite decide_False by done.
Qed.

Lemma alerts_of_giving_up (site s : Site) (r : FetchResult) (m : Z) :
  0 ≤ m ≤ 3 →
  length (filter (λ a, a.1 = subject_giving_up s)
            (alerts_of site r (Some (Num m))))
  = if decide (readable r = None ∧ m = 3 ∧ name s = name site)
    then 1%nat else 0%nat.
Proof.
  intros Hm. pose proof MAX_SAFE_INTEGER_ge.
  destruct (subjects_distinct site s) as (Hfg & _ & _).
  destruct (subjects_distinct s site) as (_ & _ & Hgc).
  unfold alerts_of, ATTEMPTS_BEFORE_GIVING_UP. cbn [to_number js_succ].
  rewrite succ_double_exact by lia.
  destruct (readable r) as [html|].
  - rewrite (decide_False (P := _ ∧ _)) by (by intros [? _]).
    destruct (includes html (textMatch site)); [done|].
    rewrite count_single. cbn [fst]. by rewrite decide_False by done.
  - destruct (Z.eqb_spec (m + 1) 1) as [E|E].
    + rewrite (decide_False (P := _ ∧ _)) by (intros (_ & ? & _); lia).
      rewrite count_single. cbn [fst]. by rewrite decide_False by done.
    + destruct (Z.ltb_spec 3 (m + 1)) as [L|L].
      * rewrite count_single. cbn [fst].
        destruct (decide (name s = name site)) as [En|En].
        -- rewrite decide_True by (symmetry; by apply subject_giving_up_name).
           rewrite decide_True; [done|]. repeat split; (done || lia).
        -- rewrite decide_False
             by (intros E'; symmetry in E'; by apply subject_giving_up_inj in E').
           rewrite decide_False; [done|]. by intros (_ & _ & ?).
      * by rewrite (decide_False (P := _ ∧ _)) by (intros (_ & ? & _); lia).
Qed.

(** The alerts of a check carry the subjects of its own site. *)
Lemma alerts_of_other (site s : Site) (r : FetchResult) (slot : option jsnum) :
  name s ≠ name site →
  filter (λ a, a.1 = subject_failed_once s) (alerts_of site r slot) = [] ∧
  filter (λ a, a.1 = subject_giving_up s) (alerts_of site r slot) = [].
Proof.
  intros Hne.
  destruct (subjects_distinct s site) as (Hfg & Hfc & Hgc).
  destruct (subjects_distinct site s) as (Hfg' & _ & _).
  assert (∀ a, a ∈ alerts_of site r slot →
               a.1 = subject_failed_once site ∨ a.1 = subject_giving_up site
               ∨ a.1 = subject_contents_changed site) as Hsub.
  { intros a. unfold alerts_of. destruct (readable r) as [html|].
    - destruct (includes html (textMatch site));
        [intros H; by apply elem_of_nil in H|].
      intros H. apply list_elem_of_singleton in H as ->. auto.
    - destruct (js_succ (to_number slot)) as [k|];
        [|intros H; by apply elem_of_nil in H].
      destruct (k =? 1); [|destruct (ATTEMPTS_BEFORE_GIVING_UP <? k)];
        intros H; [| |by apply elem_of_nil in H];
        apply list_elem_of_singleton in H as ->; auto. }
  split; apply filter_none; intros a Ha E;
    destruct (Hsub a Ha) as [E'|[E'|E']]; rewrite E' in E; symmetry in E.
  - by apply subject_failed_once_inj in E.
  - done.
  - done.
  - done.
  - by apply subject_giving_up_inj in E.
  - done.
Qed.

Lemma step_accounted (ss : list Site) (ev : Event) (p p' : Process) :
  bounded p → accounted ss p → step ev p = Some p' →
  accounted ss p'.
Proof.
  intros Hb Hacc Hs s Hin Hname.
  destruct (Hacc s Hin Hname) as [n (Hn & Hfo & Hgu)].
  destruct (step_mails ev p p' Hs) as [_ Hmails].
  rewrite (sent_with_app _ p p' _ Hmails), alert_filter.
  rewrite (sent_with_app _ p p' _ Hmails), alert_filter.
  destruct (step_cases ev p p' Hs) as (_ & _ & _ & _ & Hcase).
  destruct Hcase as [(i & r & site & st & -> & Hi & _)
                    |[(j & t & -> & _)|(k & r & -> & _)]].
  - pose proof (step_counter_fetch p p' i r site Hs Hi) as Hcnt.
    unfold step_alerts. rewrite Hi.
    destruct (decide (name s = name site)) as [E|E].
    + rewrite E in Hn.
      assert (0 ≤ n ≤ 3) as Hm3.
      { destruct (Hb _ _ Hn) as [?|[_ Hidle]]; [done|].
        by destruct Hidle; apply (fetching_pending p i). }
      rewrite Hn, alerts_of_failed_once, alerts_of_giving_up by done.
      pose proof MAX_SAFE_INTEGER_ge.
      destruct (readable r) as [html|] eqn:Hr.
      * exists n. rewrite Hcnt, E, Hn, Hfo, Hgu.
        rewrite !(decide_False (P := _ ∧ _)) by (by intros [? _]).
        split; [done|]. split; lia.
      * exists (n + 1). rewrite Hcnt, E, js_assign_own by (by rewrite Hn).
        rewrite lookup_insert_eq, Hn. simpl.
        rewrite succ_double_exact by lia. rewrite Hfo, Hgu.
        split; [done|]. split.
        -- destruct (decide (n = 0)) as [->|].
           ++ rewrite decide_False by lia.
              rewrite (decide_True (P := _ ∧ _)) by done.
              by rewrite decide_True by lia.
           ++ rewrite decide_True by lia.
              rewrite (decide_False (P := _ ∧ _)) by (by intros (_ & ? & _)).
              by rewrite decide_True by lia.
        -- rewrite decide_False by lia.
           destruct (decide (n = 3)) as [->|].
           ++ rewrite (decide_True (P := _ ∧ _)) by done.
              by rewrite decide_True by lia.
           ++ rewrite (decide_False (P := _ ∧ _)) by (by intros (_ & ? & _)).
              by rewrite decide_False by lia.
    + destruct (alerts_of_other site s r (failedAttempts p !! name site) E)
        as [-> ->].
      exists n. simpl. rewrite Hfo, Hgu. split; [|split; lia].
      rewrite Hcnt. destruct (readable r); [done|].
      rewrite js_assign_lookup_ne; [done | congruence].
  - exists n. rewrite (step_counter_other _ _ _ Hs) by done.
    simpl. rewrite Hfo, Hgu. split; [done|]. split; lia.
  - exists n. rewrite (step_counter_other _ _ _ Hs) by done.
    simpl. rewrite Hfo, Hgu. split; [done|]. split; lia.
Qed.

Lemma step_healthy (ss : list Site) (ev : Event) (p p' : Process) :
  healthy ss p → step ev p = Some p' → healthy ss p'.
Proof.
  intros (Hc & Hb & Hl & Hk & Hm & Ha) Hs.
  destruct (step_cases ev p p' Hs) as (_ & _ & Hl' & _).
  split; [by apply (step_consistent ev p)|].
  split; [by apply (step_bounded ev p)|].
  split; [by rewrite Hl'|].
  split; [by apply (step_known ss ev p)|].
  split; [by apply (step_monitored ss ev p)|].
  by apply (step_accounted ss ev p).
Qed.

Lemma run_healthy (ss : list Site) (evs : list Event) (p p' : Process) :
  healthy ss p → run evs p = Some p' → healthy ss p'.
Proof.
  revert p. induction evs as [|ev evs IH]; intros p Hh Hr; simpl in Hr.
  - by injection Hr as <-.
  - destruct (step ev p) as [q|] eqn:Hs; [|discriminate]. simpl in Hr.
    apply (IH q); [by apply (step_healthy ss ev p) | done].
Qed.

Lemma step_wired (ss : list Site) (ev : Event) (p p' : Process) :
  wired ss p → step ev p = Some p' → wired ss p'.
Proof.
  intros [Hl Hk] Hs. destruct (step_cases ev p p' Hs) as (_ & _ & Hl' & _).
  split; [by rewrite Hl'|]. by apply (step_known ss ev p).
Qed.

Lemma run_wired (ss : list Site) (evs : list Event) (p p' : Process) :
  wired ss p → run evs p = Some p' → wired ss p'.
Proof.
  revert p. induction evs as [|ev evs IH]; intros p Hw Hr; simpl in Hr.
  - by injection Hr as <-.
  - destruct (step ev p) as [q|] eqn:Hs; [|discriminate]. simpl in Hr.
    apply (IH q); [by apply (step_wired ss ev p) | done].
Qed.



Lemma start_healthy (ss : list Site) (e : gmap string string)
    (v : VerifyResult) :
  NoDup (name <$> ss) → ("newListener" ∉ name <$> ss) →
  exited (start ss e v) = None →
  healthy ss (start ss e v).
Proof.
  intros Hnd Hnl Hx.
  destruct (start_cases ss Hnd Hnl e v) as [(Hx' & _)|(_ & Hl & Hf & Ht)];
    [congruence|].
  destruct (start_quiet ss e v) as (_ & Ho & _).
  destruct (start_running ss e v Hx) as (_ & _ & Hfa).
  split; [by apply start_consistent|].
  split; [by apply start_bounded|].
  split; [done|].
  split; [split|split].
  - intros s. by rewrite Hf.
  - intros t. rewrite Ht. intros H. by apply elem_of_nil in H.
  - intros s Hs. left. rewrite pending_names_unfold, Hf.
    apply elem_of_app. left. by apply list_elem_of_fmap_2.
  - intros s Hs Hname. exists 0. unfold sent_with. rewrite Ho, Hfa.
    rewrite decide_True; [done|]. split; [by apply list_elem_of_fmap_2 | done].
Qed.

(** ** Mail addresses and timer delays *)

Lemma step_addressed (e : gmap string string) (ev : Event) (p p' : Process) :
  env p = e → addressed e p → step ev p = Some p' →
  env p' = e ∧ addressed e p'.
Proof.
  intros He Ha Hs. destruct (step_mails ev p p' Hs) as [He' Hm].
  split; [congruence|]. intros m Hin. rewrite Hm in Hin.
  apply elem_of_app in Hin as [Hin|Hin]; [by apply Ha|].
  apply list_elem_of_fmap in Hin as [a [-> _]]. simpl. by rewrite He.
Qed.

Lemma run_addressed (e : gmap string string) (evs : list Event)
    (p p' : Process) :
  env p = e → addressed e p → run evs p = Some p' →
  env p' = e ∧ addressed e p'.
Proof.
  revert p. induction evs as [|ev evs IH]; intros p He Ha Hr; simpl in Hr.
  - by injection Hr as <-.
  - destruct (step ev p) as [q|] eqn:Hs; [|discriminate]. simpl in Hr.
    destruct (step_addressed e ev p q He Ha Hs) as [He' Ha'].
    by apply (IH q).
Qed.

Lemma step_paced (ev : Event) (p p' : Process) :
  paced p → step ev p = Some p' → paced p'.
Proof.
  intros Hp Hs.
  destruct (step_cases ev p p' Hs) as (_ & _ & _ & _ & Hcase).
  destruct Hcase as [(i & r & site & st & _ & _ & _ & _ & _ & Ht & _)
                    |[(j & t & _ & _ & _ & Ht & _)
                    |(k & r & _ & _ & Ht & _)]];
    intros t' Hin; rewrite Ht in Hin.
  - apply elem_of_app in Hin as [Hin|Hin]; [by apply Hp|].
    by apply armed_known in Hin as [-> ?].
  - by apply elem_of_delete_old, Hp in Hin.
  - by apply Hp.
Qed.

Lemma run_paced (evs : list Event) (p p' : Process) :
  paced p → run evs p = Some p' → paced p'.
Proof.
  revert p. induction evs as [|ev evs IH]; intros p Hp Hr; simpl in Hr.
  - by injection Hr as <-.
  - destruct (step ev p) as [q|] eqn:Hs; [|discriminate]. simpl in Hr.
    apply (IH q); [by apply (step_paced ev p) | done].
Qed.

(** ** More on one check *)

Lemma check_alerts (site : Site) (r : FetchResult) (p : Process) :
  alerts_since p (check site r p).2
    = alerts_of site r (failedAttempts p !! name site).
Proof.
  unfold alerts_since. rewrite check_outbox, drop_own_length.
  rewrite <- list_fmap_compose. rewrite <- (list_fmap_id (alerts_of _ _ _)) at 2.
  apply list_fmap_ext. by intros _ [??] _.
Qed.

Lemma check_returns (site : Site) (r : FetchResult) (p : Process) :
  check site r p
    = (Some (verdict site r (failedAttempts p !! name site)),
       (check site r p).2).
Proof.
  pose proof (check_status site r p) as H.
  destruct (check site r p) as [o q]. simpl in *. by rewrite H.
Qed.

Lemma check_env (site : Site) (r : FetchResult) (p : Process) :
  env (check site r p).2 = env p.
Proof. by destruct (check_frame site r p) as [st [q [-> (_ & He & _)]]]. Qed.

Lemma includes_empty (s : string) : includes s EmptyString = true.
Proof. rewrite includes_unfold. by destruct s. Qed.

Lemma dispatch_READY (site : Site) (p : Process) :
  dispatch site (STATUS_value READY) p =
    checkCallback site (set_logged (λ ls, ls ++ [(LDebug, MsgGotReady)]) p).
Proof. reflexivity. Qed.

(** * Properties beyond the claims *)

(** ** One check *)

(** X1.  A site whose counter holds no number (its key is missing from
    [failedAttempts], or holds [NaN]) is never reported: every failed
    check of it returns [COOLDOWN] and sends no alert, however many follow
    one another, and its counter holds no number afterwards either, so
    that such a site never gives up.  From the first failed check on the
    key holds [NaN], but for the name [__proto__], under which the
    assignment stores nothing. *)
Theorem uninitialised_counter_stays_silent (site : Site)
    (rs : list FetchResult) (p : Process) :
  to_number (failedAttempts p !! name site) = NaN →
  Forall (λ r, readable r = None) rs →
  ∃ p', check_seq site rs p = (Some (replicate (length rs) COOLDOWN), p') ∧
        outbox p' = outbox p ∧
        to_number (failedAttempts p' !! name site) = NaN ∧
        (rs ≠ [] → name site ≠ "__proto__" →
         failedAttempts p' !! name site = Some NaN).
Proof.
  revert p. induction rs as [|r rs IH]; intros p Hnan Hall.
  - by exists p.
  - apply Forall_cons in Hall as [Hr Hall].
    assert (to_number (failedAttempts (check site r p).2 !! name site) = NaN
            ∧ (name site ≠ "__proto__" →
               failedAttempts (check site r p).2 !! name site = Some NaN))
      as [Hnan' Hslot].
    { rewrite check_counter, Hr, Hnan. split; [apply js_assign_NaN|].
      intros Hname. by rewrite js_assign_ordinary, lookup_insert_eq. }
    destruct (IH (check site r p).2 Hnan' Hall) as [p' (Hs & Ho & Hn & Hfa)].
    exists p'. simpl. unfold mbind, M_bind.
    rewrite check_returns, Hs. unfold verdict. rewrite Hr, Hnan. simpl.
    split; [done|]. split; [|split; [done|]].
    + rewrite Ho, check_outbox. unfold alerts_of. rewrite Hr, Hnan. simpl.
      by rewrite app_nil_r.
    + intros _ Hname. destruct rs as [|r' rs]; [|by apply Hfa].
      simpl in Hs. injection Hs as <-. by apply Hslot.
Qed.

Lemma uninitialised_counter_stays_silent_witness :
  to_number (failedAttempts (start sites env_ok VerifyOk) !! name stranger)
    = NaN ∧
  Forall (λ r, readable r = None) [fetch_failed; page 500 "oops"; fetch_failed;
                                   fetch_failed; fetch_failed] ∧
  (check_seq stranger [fetch_failed; page 500 "oops"; fetch_failed;
                       fetch_failed; fetch_failed]
     (start sites env_ok VerifyOk)).1
    = Some [COOLDOWN; COOLDOWN; COOLDOWN; COOLDOWN; COOLDOWN].
Proof.
  assert (to_number (failedAttempts (start sites env_ok VerifyOk)
                       !! name stranger) = NaN) as H1
    by (vm_compute; reflexivity).
  assert (Forall (λ r, readable r = None)
            [fetch_failed; page 500 "oops"; fetch_failed; fetch_failed;
             fetch_failed]) as H2 by (repeat constructor).
  split; [exact H1|]. split; [exact H2|].
  destruct (uninitialised_counter_stays_silent stranger _ _ H1 H2)
    as [p' (Hs & _)].
  by rewrite Hs.
Defined.

(** X2.  A site whose [textMatch] is the empty string matches every page:
    a check that read the body returns [WAIT] and sends no alert, whatever
    the body is. *)
Theorem empty_textMatch_matches_every_page (site : Site) (r : FetchResult)
    (html : string) (p : Process) :
  textMatch site = EmptyString →
  readable r = Some html →
  (check site r p).1 = Some WAIT ∧ alerts_since p (check site r p).2 = [].
Proof.
  intros Ht Hr. rewrite check_status, check_alerts.
  unfold verdict, alerts_of. by rewrite Hr, Ht, includes_empty.
Qed.

Lemma empty_textMatch_matches_every_page_witness :
  textMatch lenient = EmptyString ∧
  readable page_changed = Some "<p>Book this room</p>" ∧
  (check lenient page_changed (start sites env_ok VerifyOk)).1 = Some WAIT.
Proof.
  split; [reflexivity|]. split; [reflexivity|].
  exact (proj1 (empty_textMatch_matches_every_page lenient page_changed
                  "<p>Book this room</p>" (start sites env_ok VerifyOk)
                  eq_refl eq_refl)).
Defined.

(** X3.  A page that stays changed is reported at every check: over any
    series of checks that read a body without the expected text, every
    check returns [COOLDOWN] and sends one "contents changed" alert, the
    counters stay as they are, and the site never gives up. *)
Theorem changed_page_alerts_at_every_check (site : Site)
    (rs : list FetchResult) (p : Process) :
  Forall (λ r, ∃ html, readable r = Some html
                        ∧ includes html (textMatch site) = false) rs →
  ∃ p', check_seq site rs p = (Some (replicate (length rs) COOLDOWN), p') ∧
        failedAttempts p' = failedAttempts p ∧
        alerts_since p p' =
          replicate (length rs)
            (subject_contents_changed site, body_contents_changed site).
Proof.
  intros Hall.
  assert (∃ p', check_seq site rs p
                  = (Some (replicate (length rs) COOLDOWN), p') ∧
                failedAttempts p' = failedAttempts p ∧ env p' = env p ∧
                outbox p' =
                  outbox p ++ replicate (length rs)
                    (alert p (subject_contents_changed site)
                             (body_contents_changed site), Pending))
    as [p' (Hs & Hfa & _ & Ho)].
  { revert p. induction Hall as [|r rs [html [Hr Hi]] _ IH]; intros p.
    - exists p. simpl. by rewrite app_nil_r.
    - destruct (IH (check site r p).2) as [p' (Hs & Hfa & He & Ho)].
      exists p'. simpl. unfold mbind, M_bind.
      rewrite check_returns, Hs. unfold verdict at 1. rewrite Hr, Hi.
      split; [done|]. rewrite Hfa, He, Ho, check_counter, check_env, Hr.
      split; [done|]. split; [done|].
      rewrite check_outbox. unfold alerts_of. rewrite Hr, Hi. simpl.
      rewrite <- app_assoc. simpl. do 3 f_equal.
      unfold alert. by rewrite check_env. }
  exists p'. split; [done|]. split; [done|].
  unfold alerts_since. rewrite Ho, drop_own_length, fmap_replicate. done.
Qed.

Lemma changed_page_alerts_at_every_check_witness :
  Forall (λ r, ∃ html, readable r = Some html
                        ∧ includes html (textMatch LibTheatreRoom) = false)
         [page_changed; page_changed; page_changed; page_changed;
          page_changed] ∧
  (check_seq LibTheatreRoom
     [page_changed; page_changed; page_changed; page_changed; page_changed]
     (start sites env_ok VerifyOk)).1
    = Some [COOLDOWN; COOLDOWN; COOLDOWN; COOLDOWN; COOLDOWN].
Proof.
  assert (Forall (λ r, ∃ html, readable r = Some html
                        ∧ includes html (textMatch LibTheatreRoom) = false)
            [page_changed; page_changed; page_changed; page_changed;
             page_changed]) as H
    by (repeat constructor; by exists "<p>Book this room</p>").
  split; [exact H|].
  destruct (changed_page_alerts_at_every_check LibTheatreRoom _
              (start sites env_ok VerifyOk) H) as [p' (Hs & _)].
  by rewrite Hs.
Defined.

(** ** One step of the event loop *)

(** X4.  The counter of a name changes in a step only when the step is the
    check of a site of that name and the check failed: timers, mails and
    the checks of other sites leave it alone. *)
Theorem counter_changes_only_by_own_failed_check (ev : Event)
    (p p' : Process) (nm : string) :
  step ev p = Some p' →
  failedAttempts p' !! nm ≠ failedAttempts p !! nm →
  ∃ i r site, ev = FetchSettles i r ∧ fetching p !! i = Some site ∧
              name site = nm ∧ readable r = None.
Proof.
  intros Hs Hne.
  destruct (step_counter ev p p' Hs) as [E|(i & r & site & -> & Hi & Hr & E)].
  - by rewrite E in Hne.
  - exists i, r, site. repeat split; try done.
    destruct (decide (name site = nm)) as [|Hnm]; [done|].
    by rewrite E, js_assign_lookup_ne in Hne.
Qed.

Lemma counter_changes_only_by_own_failed_check_witness :
  step (FetchSettles 0 fetch_failed) (start sites env_ok VerifyOk)
    = Some (handler_resume LibTheatreRoom fetch_failed
              (set_fetching (delete 0%nat) (start sites env_ok VerifyOk))).2 ∧
  ∃ i r site, FetchSettles 0 fetch_failed = FetchSettles i r ∧
              name site = "LibTheatreRoom" ∧ readable r = None.
Proof.
  assert (step (FetchSettles 0 fetch_failed) (start sites env_ok VerifyOk)
    = Some (handler_resume LibTheatreRoom fetch_failed
              (set_fetching (delete 0%nat) (start sites env_ok VerifyOk))).2)
    as H1 by (vm_compute; reflexivity).
  split; [exact H1|].
  destruct (counter_changes_only_by_own_failed_check
              (FetchSettles 0 fetch_failed) (start sites env_ok VerifyOk)
              (handler_resume LibTheatreRoom fetch_failed
                 (set_fetching (delete 0%nat) (start sites env_ok VerifyOk))).2
              "LibTheatreRoom" H1)
    as (i & r & site & Hev & _ & Hn & Hr).
  - vm_compute. discriminate.
  - by exists i, r, site.
Defined.

(** X5.  A step hands at most one mail to the transport, and only the
    step in which a check comes back hands one. *)
Theorem step_sends_at_most_one_alert (ev : Event) (p p' : Process) :
  step ev p = Some p' →
  (length (outbox p) ≤ length (outbox p') ≤ length (outbox p) + 1)%nat ∧
  (length (outbox p') ≠ length (outbox p) → ∃ i r, ev = FetchSettles i r).
Proof.
  intros Hs. destruct (step_mails ev p p' Hs) as [_ Hm].
  apply (f_equal length) in Hm.
  rewrite length_app, !length_fmap in Hm. rewrite Hm.
  destruct ev as [i r|j|k r]; simpl.
  - split; [|by exists i, r].
    destruct (fetching p !! i) as [site|]; [|simpl; lia].
    pose proof (alerts_of_short site r (failedAttempts p !! name site)). lia.
  - split; [lia|]. intros H. lia.
  - split; [lia|]. intros H. lia.
Qed.

Lemma step_sends_at_most_one_alert_witness :
  step (FetchSettles 0 page_changed) (start sites env_ok VerifyOk)
    = Some changed_state ∧
  (length (outbox changed_state)
     ≤ length (outbox (start sites env_ok VerifyOk)) + 1)%nat.
Proof.
  assert (step (FetchSettles 0 page_changed) (start sites env_ok VerifyOk)
            = Some changed_state) as H1 by (vm_compute; reflexivity).
  split; [exact H1|].
  exact (proj2 (proj1 (step_sends_at_most_one_alert
                         (FetchSettles 0 page_changed)
                         (start sites env_ok VerifyOk) changed_state H1))).
Defined.

(** X6.  The subject of an alert tells which of the three alerts it is and
    the name of which site it is about: two subjects are equal only when
    they are of the same kind and name the same site. *)
Theorem subject_tells_alert_and_site (s s' : Site) :
  (subject_failed_once s = subject_failed_once s' ↔ name s = name s') ∧
  (subject_giving_up s = subject_giving_up s' ↔ name s = name s') ∧
  (subject_contents_changed s = subject_contents_changed s'
     ↔ name s = name s') ∧
  subject_failed_once s ≠ subject_giving_up s' ∧
  subject_failed_once s ≠ subject_contents_changed s' ∧
  subject_giving_up s ≠ subject_contents_changed s'.
Proof.
  split; [|split; [|split]].
  - split; [apply subject_failed_once_inj | apply subject_failed_once_name].
  - split; [apply subject_giving_up_inj | apply subject_giving_up_name].
  - split; [apply subject_contents_changed_inj|].
    unfold subject_contents_changed. by intros ->.
  - apply subjects_distinct.
Qed.

(** X7.  Whenever a check returns [COOLDOWN], be it for a failed fetch or
    for a changed page, the handler arms one timer for the site with a
    delay of [site.msgCooldown], and nothing else is scheduled. *)
Theorem cooldown_arms_the_cooldown_timer (site : Site) (r : FetchResult)
    (p : Process) (i : nat) :
  exited p = None →
  fetching p !! i = Some site →
  (check site r p).1 = Some COOLDOWN →
  ∃ p', step (FetchSettles i r) p = Some p' ∧
        timers p' = timers p ++ [(msgCooldown site, site)] ∧
        fetching p' = delete i (fetching p) ∧
        exited p' = None.
Proof.
  intros Hx Hi Hst. rewrite check_status in Hst.
  eexists. split; [by apply step_FetchSettles|].
  rewrite handler_resume_unfold.
  pose proof (check_resume_status site r (set_fetching (delete i) p)) as Hv.
  simpl in Hv. rewrite Hst in Hv.
  destruct (check_resume_frame site r (set_fetching (delete i) p))
    as [st [q [Hq (_ & _ & _ & Hf & Ht & Hxq & _)]]].
  rewrite Hq in Hv |- *. simpl in Hv. injection Hv as ->.
  rewrite dispatch_COOLDOWN. simpl. by rewrite Hf, Ht, Hxq.
Qed.

Lemma cooldown_arms_the_cooldown_timer_witness :
  exited (start sites env_ok VerifyOk) = None ∧
  fetching (start sites env_ok VerifyOk) !! 0%nat = Some LibTheatreRoom ∧
  (check LibTheatreRoom fetch_failed (start sites env_ok VerifyOk)).1
    = Some COOLDOWN ∧
  ∃ p', step (FetchSettles 0 fetch_failed) (start sites env_ok VerifyOk)
          = Some p' ∧
        timers p' = timers (start sites env_ok VerifyOk)
                      ++ [(msgCooldown LibTheatreRoom, LibTheatreRoom)].
Proof.
  assert (exited (start sites env_ok VerifyOk) = None) as H1
    by (vm_compute; reflexivity).
  assert (fetching (start sites env_ok VerifyOk) !! 0%nat
            = Some LibTheatreRoom) as H2 by (vm_compute; reflexivity).
  assert ((check LibTheatreRoom fetch_failed (start sites env_ok VerifyOk)).1
            = Some COOLDOWN) as H3 by (vm_compute; reflexivity).
  split; [exact H1|]. split; [exact H2|]. split; [exact H3|].
  destruct (cooldown_arms_the_cooldown_timer LibTheatreRoom fetch_failed
              (start sites env_ok VerifyOk) 0 H1 H2 H3)
    as [p' (Hs & Ht & _)].
  exists p'. split; [exact Hs | exact Ht].
Defined.

(** X8.  The [READY] branch of the switch checks again at once: with the
    listeners [main] registers for uniquely named sites, it starts one
    check of the site, arms no timer, sends nothing and counts nothing. *)
Theorem ready_checks_again_at_once (ss : list Site) (site : Site)
    (p : Process) :
  NoDup (name <$> ss) →
  listeners p = registrations ss →
  site ∈ ss →
  ∃ p', dispatch site (STATUS_value READY) p = (Some tt, p') ∧
        fetching p' = fetching p ++ [site] ∧
        timers p' = timers p ∧
        outbox p' = outbox p ∧
        failedAttempts p' = failedAttempts p ∧
        exited p' = exited p ∧
        initiated (name site) p' = S (initiated (name site) p).
Proof.
  intros Hnd Hl Hs. rewrite dispatch_READY.
  destruct (checkCallback_effect site
              (set_logged (λ ls, ls ++ [(LDebug, MsgGotReady)]) p))
    as [p' (Hc & Hf & Ht & _ & Hx & Hfa & Ho & Hi)].
  { intros [_ Hu]. apply Hu. simpl. rewrite Hl, registrations_names.
    by apply list_elem_of_fmap_2. }
  exists p'. split; [done|]. simpl in *.
  rewrite Hf, Ht, Hx, Hfa, Ho, Hi, Hl, (matched_registered ss site Hnd Hs).
  repeat split; try done.
  rewrite filter_cons, decide_True by done. simpl.
  rewrite (initiated_quiet (name site) p _ [(LDebug, MsgGotReady)]);
    [lia | done | quiet_lines].
Qed.

Lemma ready_checks_again_at_once_witness :
  NoDup (name <$> sites) ∧
  listeners (start sites env_ok VerifyOk) = registrations sites ∧
  LibTheatreRoom ∈ sites ∧
  ∃ p', dispatch LibTheatreRoom (STATUS_value READY)
          (start sites env_ok VerifyOk) = (Some tt, p') ∧
        fetching p' = fetching (start sites env_ok VerifyOk)
                        ++ [LibTheatreRoom].
Proof.
  assert (NoDup (name <$> sites)) as H1 by apply NoDup_singleton.
  assert (listeners (start sites env_ok VerifyOk) = registrations sites) as H2
    by (vm_compute; reflexivity).
  assert (LibTheatreRoom ∈ sites) as H3 by (left; reflexivity).
  split; [exact H1|]. split; [exact H2|]. split; [exact H3|].
  destruct (ready_checks_again_at_once sites LibTheatreRoom
              (start sites env_ok VerifyOk) H1 H2 H3)
    as [p' (Hd & Hf & _)].
  exists p'. split; [exact Hd | exact Hf].
Defined.

(** ** Startup *)

(** X9.  [main] goes on to monitor exactly when [MAIL_USERNAME] and
    [MAIL_APP_PASSWORD] are both set, to whatever value (the empty string
    counts as set), and the verification of the transport succeeds; in
    every other case it exits with code 1.  Neither way does it send a
    mail or arm a timer. *)
Theorem startup_goes_on_exactly_when (ss : list Site)
    (e : gmap string string) (v : VerifyResult) :
  (exited (start ss e v) = None
   ↔ is_Some (e !! "MAIL_USERNAME") ∧ is_Some (e !! "MAIL_APP_PASSWORD")
     ∧ v = VerifyOk) ∧
  (exited (start ss e v) = None ∨ exited (start ss e v) = Some 1) ∧
  outbox (start ss e v) = [] ∧ timers (start ss e v) = [].
Proof.
  destruct (start_quiet ss e v) as (_ & Ho & Ht & Hx).
  rewrite Hx, Ho, Ht. split; [|split; [|done]].
  - destruct (decide (e !! "MAIL_USERNAME" = None
                      ∨ e !! "MAIL_APP_PASSWORD" = None)) as [Hm|Hm].
    + split; [discriminate|]. intros ([u Hu] & [w Hw] & _).
      destruct Hm; congruence.
    + destruct v as [|err].
      * split; [|done]. intros _.
        destruct (e !! "MAIL_USERNAME") eqn:Hu; [|by destruct Hm; left].
        destruct (e !! "MAIL_APP_PASSWORD") eqn:Hw; [|by destruct Hm; right].
        by repeat split.
      * split; [discriminate|]. by intros (_ & _ & ?).
  - destruct (decide _); [by right|]. destruct v; [by left | by right].
Qed.

(** X10.  With both variables set and the verification passed, [main]
    leaves one listener per site under the name of the site, in the order
    of the list, no timer, checks in flight of the listed sites only, and
    a counter at 0 under the name of every site but [__proto__] and under
    no other name.  When the site names are unique and none of them is
    [newListener], the checks in flight are one per site, in the order of
    the list. *)
Theorem startup_registers_every_site (ss : list Site)
    (e : gmap string string) :
  is_Some (e !! "MAIL_USERNAME") →
  is_Some (e !! "MAIL_APP_PASSWORD") →
  listeners (start ss e VerifyOk) = registrations ss ∧
  timers (start ss e VerifyOk) = [] ∧
  exited (start ss e VerifyOk) = None ∧
  (∀ nm, failedAttempts (start ss e VerifyOk) !! nm =
           if decide (nm ∈ name <$> ss ∧ nm ≠ "__proto__") then Some (Num 0)
           else None) ∧
  (∀ s, s ∈ fetching (start ss e VerifyOk) → s ∈ ss) ∧
  (NoDup (name <$> ss) → ("newListener" ∉ name <$> ss) →
   fetching (start ss e VerifyOk) = ss).
Proof.
  intros [u Hu] [w Hw].
  destruct (start_quiet ss e VerifyOk) as (_ & _ & Ht & Hx).
  rewrite decide_False in Hx by (intros [?|?]; congruence).
  destruct (start_running ss e VerifyOk Hx) as (Hl & Hf & Hfa).
  do 5 (split; [done|]). intros Hnd Hnl.
  destruct (start_cases ss Hnd Hnl e VerifyOk)
    as [(Hx' & _)|(_ & _ & Hf' & _)]; [congruence | done].
Qed.

Lemma startup_registers_every_site_witness :
  is_Some (env_blank !! "MAIL_USERNAME") ∧
  is_Some (env_blank !! "MAIL_APP_PASSWORD") ∧
  NoDup (name <$> sites) ∧
  ("newListener" ∉ name <$> sites) ∧
  fetching (start sites env_blank VerifyOk) = sites.
Proof.
  assert (is_Some (env_blank !! "MAIL_USERNAME")) as H1
    by (exists EmptyString; vm_compute; reflexivity).
  assert (is_Some (env_blank !! "MAIL_APP_PASSWORD")) as H2
    by (exists EmptyString; vm_compute; reflexivity).
  assert (NoDup (name <$> sites)) as H3 by apply NoDup_singleton.
  assert ("newListener" ∉ name <$> sites) as H4
    by (intros H; apply list_elem_of_singleton in H; discriminate H).
  do 4 (split; [assumption|]).
  exact (proj2 (proj2 (proj2 (proj2 (proj2
           (startup_registers_every_site sites env_blank H1 H2))))) H3 H4).
Defined.

(** What the two names do that the statement sets apart: the first site
    of a list is checked once more for every later site when it is called
    [newListener], and no counter is stored for a site called
    [__proto__], whose failed checks therefore send no alert and never
    give up. *)
Example names_that_main_treats_apart :
  name <$> fetching (start [eavesdropper; LibTheatreRoom; twin] env_ok VerifyOk)
    = ["newListener"; "newListener"; "LibTheatreRoom"; "newListener";
       "LibTheatreRoom"; "LibTheatreRoom"] ∧
  failedAttempts (start [inherited; LibTheatreRoom] env_ok VerifyOk)
    = {[ "LibTheatreRoom" := Num 0 ]} ∧
  (λ p, (failedAttempts p !! "__proto__", pending_names p, length (outbox p)))
    <$> run [FetchSettles 0 fetch_failed; TimerFires 0;
             FetchSettles 1 fetch_failed; TimerFires 0;
             FetchSettles 1 fetch_failed; TimerFires 0;
             FetchSettles 1 fetch_failed; TimerFires 0;
             FetchSettles 1 fetch_failed]
            (start [inherited; LibTheatreRoom] env_ok VerifyOk)
  = Some (None, ["LibTheatreRoom"; "__proto__"], 0%nat).
Proof. do 2 (split; [vm_compute; reflexivity|]). vm_compute; reflexivity. Qed.

(** The name [error] does no harm: an [emit] of that event throws only
    while nothing listens to it, and [main] emits the event of a site
    after it has added the listener of the site. *)
Example error_is_heard_once_registered :
  (emit "error" (boot env_ok)).1 = None ∧
  exited (emit "error" (boot env_ok)).2 = Some 1 ∧
  exited (start [mistaken; LibTheatreRoom] env_ok VerifyOk) = None ∧
  name <$> fetching (start [mistaken; LibTheatreRoom] env_ok VerifyOk)
    = ["error"; "LibTheatreRoom"] ∧
  (λ p, (exited p, pending_names p))
    <$> run [FetchSettles 0 page_up; TimerFires 0]
            (start [mistaken; LibTheatreRoom] env_ok VerifyOk)
  = Some (None, ["LibTheatreRoom"; "error"]).
Proof. do 4 (split; [vm_compute; reflexivity|]). vm_compute; reflexivity. Qed.

(** ** The life of the process *)



(** X12.  Every mail the process ever hands to the transport has the
    value of [MAIL_USERNAME] both as its sender and as its recipient. *)
Theorem alerts_go_from_and_to_mail_username (ss : list Site)
    (e : gmap string string) (v : VerifyResult) (evs : list Event)
    (p : Process) (m : Mail) :
  run evs (start ss e v) = Some p →
  m ∈ (outbox p).*1 →
  mail_from m = e !! "MAIL_USERNAME" ∧ mail_to m = e !! "MAIL_USERNAME".
Proof.
  intros Hr Hm. destruct (start_quiet ss e v) as (He & Ho & _).
  assert (addressed e (start ss e v)) as Ha.
  { intros m'. rewrite Ho. intros H. by apply elem_of_nil in H. }
  destruct (run_addressed e evs _ p He Ha Hr) as [_ Hp]. by apply Hp.
Qed.

Lemma alerts_go_from_and_to_mail_username_witness :
  run [FetchSettles 0 page_changed] (start sites env_ok VerifyOk)
    = Some changed_state ∧
  alert changed_state (subject_contents_changed LibTheatreRoom)
                      (body_contents_changed LibTheatreRoom)
    ∈ (outbox changed_state).*1 ∧
  mail_to (alert changed_state (subject_contents_changed LibTheatreRoom)
                               (body_contents_changed LibTheatreRoom))
    = env_ok !! "MAIL_USERNAME".
Proof.
  assert (run [FetchSettles 0 page_changed] (start sites env_ok VerifyOk)
            = Some changed_state) as H1 by (vm_compute; reflexivity).
  assert (alert changed_state (subject_contents_changed LibTheatreRoom)
                              (body_contents_changed LibTheatreRoom)
            ∈ (outbox changed_state).*1) as H2.
  { replace ((outbox changed_state).*1)
      with [alert changed_state (subject_contents_changed LibTheatreRoom)
                                (body_contents_changed LibTheatreRoom)]
      by (vm_compute; reflexivity).
    by left. }
  split; [exact H1|]. split; [exact H2|].
  exact (proj2 (alerts_go_from_and_to_mail_username sites env_ok VerifyOk
                  [FetchSettles 0 page_changed] changed_state _ H1 H2)).
Defined.

(** X13.  With site names that are unique and none of which is
    [newListener], no site ever has two checks under way: at every moment
    the checks in flight and the timers armed are for pairwise different
    sites. *)
Theorem one_check_or_timer_per_site (ss : list Site) (e : gmap string string)
    (v : VerifyResult) (evs : list Event) (p : Process) :
  NoDup (name <$> ss) →
  ("newListener" ∉ name <$> ss) →
  run evs (start ss e v) = Some p →
  NoDup (pending_names p).
Proof.
  intros Hnd Hnl Hr.
  by destruct (run_consistent evs _ p (start_consistent ss Hnd Hnl e v) Hr)
    as (_ & _ & ?).
Qed.

Lemma one_check_or_timer_per_site_witness :
  NoDup (name <$> sites) ∧
  ("newListener" ∉ name <$> sites) ∧
  run three_failures (start sites env_ok VerifyOk) = Some after_three_failures ∧
  NoDup (pending_names after_three_failures).
Proof.
  assert (NoDup (name <$> sites)) as H1 by apply NoDup_singleton.
  assert ("newListener" ∉ name <$> sites) as H0
    by (intros H; apply list_elem_of_singleton in H; discriminate H).
  assert (run three_failures (start sites env_ok VerifyOk)
            = Some after_three_failures) as H2 by (vm_compute; reflexivity).
  split; [exact H1|]. split; [exact H0|]. split; [exact H2|].
  exact (one_check_or_timer_per_site sites env_ok VerifyOk three_failures
           after_three_failures H1 H0 H2).
Defined.

(** X14.  With site names that are unique and none of which is
    [newListener], a process that started and is still running drops no
    site by accident: a configured site (other than one called
    [__proto__], which has no counter) has a check in flight or a timer
    armed exactly when its counter is at most 3, and has neither exactly
    when its counter is 4, the value at which it gave up. *)
Theorem site_is_monitored_until_it_gives_up (ss : list Site)
    (e : gmap string string) (v : VerifyResult) (evs : list Event)
    (p : Process) (s : Site) :
  NoDup (name <$> ss) →
  ("newListener" ∉ name <$> ss) →
  run evs (start ss e v) = Some p →
  exited p = None →
  s ∈ ss →
  name s ≠ "__proto__" →
  ∃ n, failedAttempts p !! name s = Some (Num n) ∧
       (name s ∈ pending_names p ↔ 0 ≤ n ≤ 3) ∧
       (name s ∉ pending_names p ↔ n = 4).
Proof.
  intros Hnd Hnl Hr Hxp Hs Hname.
  assert (exited (start ss e v) = None) as Hx.
  { destruct (exited (start ss e v)) as [c|] eqn:Hx; [|done].
    pose proof (run_stuck _ _ _ _ Hx Hr) as ->. simpl in Hr.
    injection Hr as <-. congruence. }
  destruct (run_healthy ss evs _ p (start_healthy ss e v Hnd Hnl Hx) Hr)
    as (_ & Hb & _ & _ & Hm & Ha).
  destruct (Ha s Hs Hname) as [n (Hn & _)]. exists n. split; [done|].
  destruct (Hb _ _ Hn) as [H3|[-> Hidle]].
  - split; [|split; [|lia]].
    + split; [done|]. intros _.
      destruct (Hm s Hs) as [?|H4]; [done|]. rewrite Hn in H4.
      injection H4 as ->. lia.
    + intros Hidle. destruct (Hm s Hs) as [?|H4]; [done|].
      rewrite Hn in H4. by injection H4.
  - split; [|done]. split; [done | lia].
Qed.

Lemma site_is_monitored_until_it_gives_up_witness :
  NoDup (name <$> sites) ∧
  ("newListener" ∉ name <$> sites) ∧
  run three_failures (start sites env_ok VerifyOk) = Some after_three_failures ∧
  exited after_three_failures = None ∧
  LibTheatreRoom ∈ sites ∧
  name LibTheatreRoom ≠ "__proto__" ∧
  ∃ n, failedAttempts after_three_failures !! name LibTheatreRoom
         = Some (Num n) ∧
       (name LibTheatreRoom ∈ pending_names after_three_failures ↔ 0 ≤ n ≤ 3).
Proof.
  assert (NoDup (name <$> sites)) as H1 by apply NoDup_singleton.
  assert ("newListener" ∉ name <$> sites) as H0
    by (intros H; apply list_elem_of_singleton in H; discriminate H).
  assert (run three_failures (start sites env_ok VerifyOk)
            = Some after_three_failures) as H3 by (vm_compute; reflexivity).
  assert (exited after_three_failures = None) as H2
    by (vm_compute; reflexivity).
  assert (LibTheatreRoom ∈ sites) as H4 by (left; reflexivity).
  assert (name LibTheatreRoom ≠ "__proto__") as H5 by discriminate.
  do 6 (split; [assumption|]).
  destruct (site_is_monitored_until_it_gives_up sites env_ok VerifyOk
              three_failures after_three_failures LibTheatreRoom
              H1 H0 H3 H2 H4 H5)
    as [n (Hn & Hp & _)].
  exists n. split; [exact Hn | exact Hp].
Defined.

(** X15.  With site names that are unique and none of which is
    [newListener], no key of [failedAttempts] ever holds a number outside
    0 .. [ATTEMPTS_BEFORE_GIVING_UP] + 1; and in a process that started
    the counter of every configured site other than one called
    [__proto__] is always such a number, never [NaN] and never missing. *)
Theorem counters_stay_between_0_and_4 (ss : list Site)
    (e : gmap string string) (v : VerifyResult) (evs : list Event)
    (p : Process) :
  NoDup (name <$> ss) →
  ("newListener" ∉ name <$> ss) →
  run evs (start ss e v) = Some p →
  (∀ nm n, failedAttempts p !! nm = Some (Num n) →
           0 ≤ n ≤ ATTEMPTS_BEFORE_GIVING_UP + 1) ∧
  (exited (start ss e v) = None →
   ∀ s, s ∈ ss → name s ≠ "__proto__" →
        ∃ n, failedAttempts p !! name s = Some (Num n)
             ∧ 0 ≤ n ≤ ATTEMPTS_BEFORE_GIVING_UP + 1).
Proof.
  intros Hnd Hnl Hr.
  assert (∀ nm n, failedAttempts p !! nm = Some (Num n) →
                  0 ≤ n ≤ ATTEMPTS_BEFORE_GIVING_UP + 1) as Hsmall.
  { intros nm n Hn.
    pose proof (run_bounded evs _ p (start_consistent ss Hnd Hnl e v)
                  (start_bounded ss e v) Hr nm n Hn).
    unfold ATTEMPTS_BEFORE_GIVING_UP. lia. }
  split; [done|].
  intros Hx s Hs Hname.
  destruct (run_healthy ss evs _ p (start_healthy ss e v Hnd Hnl Hx) Hr)
    as (_ & _ & _ & _ & _ & Ha).
  destruct (Ha s Hs Hname) as [n (Hn & _)]. exists n. split; [done|].
  by apply (Hsmall (name s)).
Qed.

Lemma counters_stay_between_0_and_4_witness :
  NoDup (name <$> sites) ∧
  ("newListener" ∉ name <$> sites) ∧
  run three_failures (start sites env_ok VerifyOk) = Some after_three_failures ∧
  ∀ nm n, failedAttempts after_three_failures !! nm = Some (Num n) →
          0 ≤ n ≤ ATTEMPTS_BEFORE_GIVING_UP + 1.
Proof.
  assert (NoDup (name <$> sites)) as H1 by apply NoDup_singleton.
  assert ("newListener" ∉ name <$> sites) as H0
    by (intros H; apply list_elem_of_singleton in H; discriminate H).
  assert (run three_failures (start sites env_ok VerifyOk)
            = Some after_three_failures) as H2 by (vm_compute; reflexivity).
  split; [exact H1|]. split; [exact H0|]. split; [exact H2|].
  exact (proj1 (counters_stay_between_0_and_4 sites env_ok VerifyOk
                  three_failures after_three_failures H1 H0 H2)).
Defined.

(** X16.  With unique site names, when a timer fires in the running
    process it starts one check, of the site the timer was armed for, and
    nothing else: the timer is gone, no other check starts, no mail is
    sent and no counter moves. *)
Theorem timer_restarts_the_check_of_its_site (ss : list Site)
    (e : gmap string string) (v : VerifyResult) (evs : list Event)
    (p : Process) (j : nat) (d : Z) (site : Site) :
  NoDup (name <$> ss) →
  exited (start ss e v) = None →
  run evs (start ss e v) = Some p →
  exited p = None →
  timers p !! j = Some (d, site) →
  ∃ p', step (TimerFires j) p = Some p' ∧
        fetching p' = fetching p ++ [site] ∧
        timers p' = delete j (timers p) ∧
        initiated (name site) p' = S (initiated (name site) p) ∧
        outbox p' = outbox p ∧
        failedAttempts p' = failedAttempts p.
Proof.
  intros Hnd Hx Hr Hxp Hj.
  destruct (run_wired ss evs _ p (start_wired ss e v Hx) Hr) as [Hl [_ Hkt]].
  assert (site ∈ ss) as Hsite
    by (by apply list_elem_of_lookup_2, Hkt in Hj).
  destruct (timer_fires ss site d j p Hnd Hl Hsite Hxp Hj)
    as [p' (Hs & Hf & Ht & Hi & Ho & Hfa & _)].
  by exists p'.
Qed.

Lemma timer_restarts_the_check_of_its_site_witness :
  NoDup (name <$> sites) ∧
  exited (start sites env_ok VerifyOk) = None ∧
  run [FetchSettles 0 page_changed] (start sites env_ok VerifyOk)
    = Some changed_state ∧
  exited changed_state = None ∧
  timers changed_state !! 0%nat
    = Some (msgCooldown LibTheatreRoom, LibTheatreRoom) ∧
  ∃ p', step (TimerFires 0) changed_state = Some p' ∧
        fetching p' = fetching changed_state ++ [LibTheatreRoom].
Proof.
  assert (NoDup (name <$> sites)) as H1 by apply NoDup_singleton.
  assert (exited (start sites env_ok VerifyOk) = None) as H2
    by (vm_compute; reflexivity).
  assert (run [FetchSettles 0 page_changed] (start sites env_ok VerifyOk)
            = Some changed_state) as H3 by (vm_compute; reflexivity).
  assert (exited changed_state = None) as H5 by (vm_compute; reflexivity).
  assert (timers changed_state !! 0%nat
            = Some (msgCooldown LibTheatreRoom, LibTheatreRoom)) as H4
    by (vm_compute; reflexivity).
  do 5 (split; [assumption|]).
  destruct (timer_restarts_the_check_of_its_site sites env_ok VerifyOk
              [FetchSettles 0 page_changed] changed_state 0
              (msgCooldown LibTheatreRoom) LibTheatreRoom H1 H2 H3 H5 H4)
    as [p' (Hs & Hf & _)].
  exists p'. split; [exact Hs | exact Hf].
Defined.

(** X17.  With site names that are unique and none of which is
    [newListener], the failure mails of a configured site (other than one
    called [__proto__], which gets none) follow from its counter: over the
    whole life of the process the site gets exactly one "failed (once)"
    mail once its counter has reached 1 and none before, and exactly one
    "giving up" mail once its counter has reached 4 and none before. *)
Theorem failure_mails_follow_the_counter (ss : list Site)
    (e : gmap string string) (v : VerifyResult) (evs : list Event)
    (p : Process) (s : Site) :
  NoDup (name <$> ss) →
  ("newListener" ∉ name <$> ss) →
  exited (start ss e v) = None →
  run evs (start ss e v) = Some p →
  s ∈ ss →
  name s ≠ "__proto__" →
  ∃ n, failedAttempts p !! name s = Some (Num n) ∧
       sent_with (subject_failed_once s) p
         = (if decide (1 ≤ n) then 1%nat else 0%nat) ∧
       sent_with (subject_giving_up s) p
         = (if decide (4 ≤ n) then 1%nat else 0%nat).
Proof.
  intros Hnd Hnl Hx Hr Hs Hname.
  destruct (run_healthy ss evs _ p (start_healthy ss e v Hnd Hnl Hx) Hr)
    as (_ & _ & _ & _ & _ & Ha).
  by apply Ha.
Qed.

Lemma failure_mails_follow_the_counter_witness :
  NoDup (name <$> sites) ∧
  ("newListener" ∉ name <$> sites) ∧
  exited (start sites env_ok VerifyOk) = None ∧
  run three_failures (start sites env_ok VerifyOk) = Some after_three_failures ∧
  LibTheatreRoom ∈ sites ∧
  name LibTheatreRoom ≠ "__proto__" ∧
  ∃ n, failedAttempts after_three_failures !! name LibTheatreRoom
         = Some (Num n) ∧
       sent_with (subject_failed_once LibTheatreRoom) after_three_failures
         = (if decide (1 ≤ n) then 1%nat else 0%nat).
Proof.
  assert (NoDup (name <$> sites)) as H1 by apply NoDup_singleton.
  assert ("newListener" ∉ name <$> sites) as H0
    by (intros H; apply list_elem_of_singleton in H; discriminate H).
  assert (exited (start sites env_ok VerifyOk) = None) as H2
    by (vm_compute; reflexivity).
  assert (run three_failures (start sites env_ok VerifyOk)
            = Some after_three_failures) as H3 by (vm_compute; reflexivity).
  assert (LibTheatreRoom ∈ sites) as H4 by (left; reflexivity).
  assert (name LibTheatreRoom ≠ "__proto__") as H5 by discriminate.
  do 6 (split; [assumption|]).
  destruct (failure_mails_follow_the_counter sites env_ok VerifyOk
              three_failures after_three_failures LibTheatreRoom
              H1 H0 H2 H3 H4 H5)
    as [n (Hn & Hf & _)].
  exists n. split; [exact Hn | exact Hf].
Defined.

(** X18.  Every timer the process ever arms runs for one of the two
    intervals of the site it is for: [site.interval] or
    [site.msgCooldown]. *)
Theorem timers_run_for_interval_or_cooldown (ss : list Site)
    (e : gmap string string) (v : VerifyResult) (evs : list Event)
    (p : Process) (d : Z) (site : Site) :
  run evs (start ss e v) = Some p →
  (d, site) ∈ timers p →
  d = interval site ∨ d = msgCooldown site.
Proof.
  intros Hr Hin. destruct (start_quiet ss e v) as (_ & _ & Ht & _).
  assert (paced (start ss e v)) as Hp.
  { intros t. rewrite Ht. intros H. by apply elem_of_nil in H. }
  by apply (run_paced evs _ p Hp Hr (d, site)).
Qed.

Lemma timers_run_for_interval_or_cooldown_witness :
  run [FetchSettles 0 page_changed] (start sites env_ok VerifyOk)
    = Some changed_state ∧
  (msgCooldown LibTheatreRoom, LibTheatreRoom) ∈ timers changed_state ∧
  (msgCooldown LibTheatreRoom = interval LibTheatreRoom
   ∨ msgCooldown LibTheatreRoom = msgCooldown LibTheatreRoom).
Proof.
  assert (run [FetchSettles 0 page_changed] (start sites env_ok VerifyOk)
            = Some changed_state) as H1 by (vm_compute; reflexivity).
  assert ((msgCooldown LibTheatreRoom, LibTheatreRoom) ∈ timers changed_state)
    as H2.
  { replace (timers changed_state)
      with [(msgCooldown LibTheatreRoom, LibTheatreRoom)]
      by (vm_compute; reflexivity).
    by left. }
  split; [exact H1|]. split; [exact H2|].
  exact (timers_run_for_interval_or_cooldown sites env_ok VerifyOk
           [FetchSettles 0 page_changed] changed_state _ _ H1 H2).
Defined.

(** ** The log of a startup that aborts *)

(** X19.  The log of a startup that aborts tells how far it got: with a
    variable missing the one line about the variables is all there is, so
    the transport was neither created nor asked to verify; with both
    variables set and the verification failed, the lines of the transport
    and of the verification are followed by the two error lines, and no
    line about any site. *)
Theorem aborted_startup_log (ss : list Site) (e : gmap string string)
    (v : VerifyResult) (err : JsError) :
  (e !! "MAIL_USERNAME" = None ∨ e !! "MAIL_APP_PASSWORD" = None →
   logged (start ss e v) = [(LError, MsgMissingEnv)]) ∧
  (is_Some (e !! "MAIL_USERNAME") → is_Some (e !! "MAIL_APP_PASSWORD") →
   logged (start ss e (VerifyThrows err)) =
     [(LInfo, MsgInitializingTransport); (LInfo, MsgTransportInitialized);
      (LInfo, MsgVerifying); (LError, MsgAuthorizationFailed);
      (LError, MsgVerifyError err)]).
Proof.
  unfold start. split.
  - intros Hm. by rewrite main_with_missing_env.
  - intros [u Hu] [w Hw]. rewrite main_with_unverified; [done|].
    simpl. intros [?|?]; congruence.
Qed.

Lemma aborted_startup_log_witness :
  ((∅ : gmap string string) !! "MAIL_USERNAME" = None) ∧
  logged (start sites ∅ VerifyOk) = [(LError, MsgMissingEnv)].
Proof.
  split; [reflexivity|].
  exact (proj1 (aborted_startup_log sites ∅ VerifyOk
                  {| error_toString := "Error: Invalid login" |})
           (or_introl eq_refl)).
Defined.
